(** * Admission analyzer: list reconciliation and seat allocation

    A shallow embedding of [admission_core.py]: the allocation engine
    [compute_admission], the reconciler [upsert_competition_list] with the
    record store it writes, and the read queries built on that store.

    Python integers are [Z], strings are [string], dictionaries are stdpp
    finite maps, raised exceptions are the [Raise] constructor of [result]. *)

From Stdlib Require Import ZArith Lia.
From stdpp Require Import gmap strings list fin_maps sorting.

#[local] Set Warnings "-clear-no-such-hyp".

Local Open Scope string_scope.
Local Open Scope list_scope.
Local Open Scope Z_scope.

(** ** Exceptions and the error monad *)

Inductive exn : Type :=
  | ValueError      (* raised by [_normalize_df] and by [astype(int)] *)
  | TypeError       (* [astype(int)] on a cell that holds [None] *)
  | OverflowError   (* [astype(int)] on an integer beyond 64 bits *)
  | KeyError        (* a dictionary subscript on a missing key *)
  | IndexError      (* a list subscript out of range *)
  | StoreError.     (* a failure raised by the database driver *)

Inductive result (A : Type) : Type :=
  | Ok (a : A)
  | Raise (e : exn).
Arguments Ok {A} a.
Arguments Raise {A} e.

Definition rbind {A B} (m : result A) (k : A → result B) : result B :=
  match m with
  | Ok a => k a
  | Raise e => Raise e
  end.

Notation "'let*' x ':=' m 'in' k" := (rbind m (fun x => k))
  (at level 10, x name, m at level 100, k at level 200).

(** A dictionary subscript [d[k]]: the value, or [KeyError]. *)
Definition subscript `{Countable K} {V} (d : gmap K V) (k : K) : result V :=
  match d !! k with
  | Some v => Ok v
  | None => Raise KeyError
  end.

(** ** Python's [sorted(l, key=...)]

    [sorted] is stable: elements whose keys compare equal keep their input
    order.  [kle a b] is [key a <= key b]. *)

Module Py.
Section Sorted.
Context {A : Type} (kle : A → A → bool).

Fixpoint insert_stable (x : A) (l : list A) : list A :=
  match l with
  | [] => [x]
  | y :: l' => if kle x y then x :: y :: l' else y :: insert_stable x l'
  end.

Definition sorted (l : list A) : list A := foldr insert_stable [] l.
End Sorted.

(** Tuple comparison [(a, b) <= (c, d)] on pairs of integers. *)
Definition tuple_leb (x y : Z * Z) : bool :=
  (x.1 <? y.1) || ((x.1 =? y.1) && (x.2 <=? y.2)).
End Py.

(** ** The allocation engine *)

Module Alloc.

Definition PROGRAMS : list string := ["PM"; "IVT"; "ITSS"; "IB"].

Definition SEATS : gmap string Z :=
  <["IB" := 20]> (<["ITSS" := 30]> (<["IVT" := 50]> (<["PM" := 40]> ∅))).

(** One input row of [compute_admission]: id, program, priority, consent,
    total. *)
Record row : Type := Row {
  r_id : Z;
  r_program : string;
  r_priority : Z;
  r_consent : Z;
  r_total : Z
}.

(** [df[df["consent"] == 1]] *)
Definition consenting (rows : list row) : list row :=
  filter (fun r => r_consent r = 1) rows.

(** The loop over [df.iterrows()] filling [apps] (a [defaultdict(list)]) and
    [scores]. *)
Definition collect_step (st : gmap Z (list (Z * string)) * gmap Z Z) (r : row)
    : gmap Z (list (Z * string)) * gmap Z Z :=
  let aid := r_id r in
  (<[aid := (st.1 !!! aid) ++ [(r_priority r, r_program r)]]> st.1,
   <[aid := r_total r]> st.2).

Definition collect (df : list row) : gmap Z (list (Z * string)) * gmap Z Z :=
  foldl collect_step (∅, ∅) df.

(** [[p for _, p in sorted(apps[aid], key=lambda t: t[0])]] *)
Definition by_priority (l : list (Z * string)) : list (Z * string) :=
  Py.sorted (fun a b => a.1 <=? b.1) l.

Definition preference_list (l : list (Z * string)) : list string :=
  (by_priority l).*2.

(** [sorted(scores.keys(), key=lambda i: (-scores[i], i))] *)
Definition score_of (scores : gmap Z Z) (i : Z) : Z := scores !!! i.

Definition order_key (scores : gmap Z Z) (i : Z) : Z * Z :=
  (- score_of scores i, i).

Definition order_leb (scores : gmap Z Z) (i j : Z) : bool :=
  Py.tuple_leb (order_key scores i) (order_key scores j).

Definition processing_order (scores : gmap Z Z) : list Z :=
  Py.sorted (order_leb scores) (elements (dom scores)).

(** [{p: [] for p in PROGRAMS}] and [{p: None for p in PROGRAMS}] *)
Definition init_accepted : gmap string (list Z) :=
  foldl (fun d p => <[p := []]> d) ∅ PROGRAMS.

Definition init_cut : gmap string (option Z) :=
  foldl (fun d p => <[p := None]> d) ∅ PROGRAMS.

(** The inner loop [for prog in apps[aid]: ...; break]. *)
Fixpoint scan (accepted : gmap string (list Z)) (aid : Z) (progs : list string)
    : result (gmap string (list Z)) :=
  match progs with
  | [] => Ok accepted
  | prog :: rest =>
      let* l := subscript accepted prog in
      let* cap := subscript SEATS prog in
      if Z.of_nat (length l) <? cap
      then Ok (<[prog := l ++ [aid]]> accepted)
      else scan accepted aid rest
  end.

(** The outer loop [for aid in order]. *)
Fixpoint allocate (prefs : gmap Z (list string)) (accepted : gmap string (list Z))
    (order : list Z) : result (gmap string (list Z)) :=
  match order with
  | [] => Ok accepted
  | aid :: rest =>
      let* accepted' := scan accepted aid (prefs !!! aid) in
      allocate prefs accepted' rest
  end.

(** [None if len(accepted[p]) < SEATS[p] else scores[accepted[p][-1]]] *)
Definition cutoff_of (accepted : gmap string (list Z)) (scores : gmap Z Z)
    (p : string) : result (option Z) :=
  let* l := subscript accepted p in
  let* cap := subscript SEATS p in
  if Z.of_nat (length l) <? cap then Ok None
  else match last l with
       | None => Raise IndexError
       | Some aid => let* s := subscript scores aid in Ok (Some s)
       end.

Fixpoint cutoffs (accepted : gmap string (list Z)) (scores : gmap Z Z)
    (cut : gmap string (option Z)) (progs : list string)
    : result (gmap string (option Z)) :=
  match progs with
  | [] => Ok cut
  | p :: rest =>
      let* c := cutoff_of accepted scores p in
      cutoffs accepted scores (<[p := c]> cut) rest
  end.

Definition compute_admission (rows : list row)
    : result (gmap string (list Z) * gmap string (option Z)) :=
  match rows with
  | [] => Ok (init_accepted, init_cut)
  | _ =>
      let df := consenting rows in
      let '(apps, scores) := collect df in
      let prefs := preference_list <$> apps in
      let order := processing_order scores in
      let* accepted := allocate prefs init_accepted order in
      let* cut := cutoffs accepted scores ∅ PROGRAMS in
      Ok (accepted, cut)
  end.

End Alloc.

(** ** The record store and the reconciler *)

Module Store.
Import Alloc.

(** The three tables of [SCHEMA_SQL].  [applicants] is keyed by its primary
    key [id], [applications] by its primary key [(day, program,
    applicant_id)]; [loads] is append-only with an autoincrement key, kept in
    insertion order. *)
Record scores : Type := Scores {
  s_phys : Z; s_rus : Z; s_math : Z; s_indiv : Z; s_total : Z
}.

Record app_fact : Type := AppFact {
  a_consent : Z; a_priority : Z; a_loaded_at : string
}.

Record load : Type := Load {
  l_day : string; l_program : string; l_loaded_at : string
}.

Record db : Type := DB {
  applicants : gmap Z scores;
  loads : list load;
  applications : gmap (string * string * Z) app_fact
}.

Definition empty_db : db := DB ∅ [] ∅.

(** *** Transactions

    A statement runs against the store and may be refused by the driver.
    [faults] is the number of statements the driver will still execute before
    it raises; [None] is a driver that never fails. *)
Definition conn : Type := db * option nat.
Definition Tx (A : Type) : Type := conn → result (A * conn).

Definition tx_ret {A} (a : A) : Tx A := fun c => Ok (a, c).

Definition tx_bind {A B} (m : Tx A) (k : A → Tx B) : Tx B :=
  fun c => match m c with
           | Ok (a, c') => k a c'
           | Raise e => Raise e
           end.

Notation "'do*' x ':=' m 'in' k" := (tx_bind m (fun x => k))
  (at level 10, x name, m at level 100, k at level 200).
Notation "'seq*' m 'in' k" := (tx_bind m (fun _ => k))
  (at level 10, m at level 100, k at level 200).

(** [con.execute(...)] of a statement that reads the store and may write it. *)
Definition execute {A} (stmt : db → A * db) : Tx A :=
  fun c => match c.2 with
           | Some O => Raise StoreError
           | Some (S n) => let '(a, d) := stmt c.1 in Ok (a, (d, Some n))
           | None => let '(a, d) := stmt c.1 in Ok (a, (d, None))
           end.

Definition write (f : db → db) : Tx unit := execute (fun d => (tt, f d)).
Definition read {A} (q : db → A) : Tx A := execute (fun d => (q d, d)).

Fixpoint tx_for {A} (l : list A) (body : A → Tx unit) : Tx unit :=
  match l with
  | [] => tx_ret tt
  | x :: l' => seq* body x in tx_for l' body
  end.

(** [with engine.begin() as con: body]: commit when the body returns,
    roll back when it raises; the commit is itself a statement. *)
Definition engine_begin {A} (body : Tx A) (faults : option nat) (d : db)
    : result A * db :=
  match (do* a := body in seq* write id in tx_ret a) (d, faults) with
  | Ok (a, c) => (Ok a, c.1)
  | Raise e => (Raise e, d)
  end.

(** *** The SQL statements *)

Definition insert_load (day program t : string) (d : db) : db :=
  DB (applicants d) (loads d ++ [Load day program t]) (applications d).

(** One row of a normalised batch: id, consent, priority, phys, rus, math,
    indiv, total. *)
Record nrow : Type := NRow {
  n_id : Z; n_consent : Z; n_priority : Z;
  n_phys : Z; n_rus : Z; n_math : Z; n_indiv : Z; n_total : Z
}.

(** [INSERT INTO applicants ... ON CONFLICT(id) DO UPDATE SET ...] *)
Definition upsert_applicant (r : nrow) (d : db) : db :=
  DB (<[n_id r := Scores (n_phys r) (n_rus r) (n_math r) (n_indiv r) (n_total r)]>
        (applicants d))
     (loads d) (applications d).

(** [SELECT applicant_id FROM applications WHERE day=:d AND program=:p] *)
Definition in_partition (day program : string)
    (kv : string * string * Z * app_fact) : Prop :=
  kv.1.1.1 = day ∧ kv.1.1.2 = program.

Definition select_application_ids (day program : string) (d : db) : gset Z :=
  set_map (fun k : string * string * Z => k.2)
          (dom (filter (in_partition day program) (applications d))).

(** [DELETE FROM applications WHERE day=:d AND program=:p AND applicant_id
    IN (...)] *)
Definition delete_applications (day program : string) (ids : gset Z) (d : db)
    : db :=
  DB (applicants d) (loads d)
     (filter (fun kv : string * string * Z * app_fact =>
                ¬ (in_partition day program kv ∧ kv.1.2 ∈ ids))
             (applications d)).

(** [INSERT INTO applications ... ON CONFLICT(day, program, applicant_id) DO
    UPDATE SET consent, priority, loaded_at] *)
Definition upsert_application (day program t : string) (r : nrow) (d : db)
    : db :=
  DB (applicants d) (loads d)
     (<[(day, program, n_id r) := AppFact (n_consent r) (n_priority r) t]>
        (applications d)).

(** *** [_normalize_df]

    A data frame maps its column labels to its columns; the labels of a
    frame are distinct, as they are in every frame [pd.read_csv] returns.
    [astype(int)] belongs to pandas; a cell is recorded by what that coercion
    makes of it. *)
Inductive cell : Type :=
  | IntLike (z : Z)     (* coerces to the integer [z] *)
  | NotNumber           (* text that is no number, or NaN: [ValueError] *)
  | NoneCell            (* [None]: [TypeError] *)
  | TooBig.             (* an integer beyond 64 bits: [OverflowError] *)

Abbreviation dataframe := (gmap string (list cell)).

Definition required : list string :=
  ["id"; "consent"; "priority"; "phys"; "rus"; "math"; "indiv"; "total"].

(** [df[c]] for a label [c] of the frame. *)
Definition column (df : dataframe) (c : string) : list cell :=
  default [] (df !! c).

Definition int_of_cell (c : cell) : result Z :=
  match c with
  | IntLike z => Ok z
  | NotNumber => Raise ValueError
  | NoneCell => Raise TypeError
  | TooBig => Raise OverflowError
  end.

(** The cells are coerced from the top of the column down: the first one
    that does not coerce decides the exception. *)
Fixpoint astype_int (col : list cell) : result (list Z) :=
  match col with
  | [] => Ok []
  | c :: rest =>
      let* z := int_of_cell c in
      let* zs := astype_int rest in
      Ok (z :: zs)
  end.

Fixpoint zip_rows (ids cs prs phs rus mas ins tos : list Z) : list nrow :=
  match ids, cs, prs, phs, rus, mas, ins, tos with
  | i :: ids, c :: cs, pr :: prs, ph :: phs, ru :: rus, ma :: mas, n :: ins,
    t :: tos =>
      NRow i c pr ph ru ma n t :: zip_rows ids cs prs phs rus mas ins tos
  | _, _, _, _, _, _, _, _ => []
  end.

Definition _normalize_df (df : dataframe) : result (list nrow) :=
  let missing := filter (fun c => c ∉ dom df) required in
  match missing with
  | _ :: _ => Raise ValueError
  | [] =>
      let* ids := astype_int (column df "id") in
      let* cs := astype_int (column df "consent") in
      let* prs := astype_int (column df "priority") in
      let* phs := astype_int (column df "phys") in
      let* rus := astype_int (column df "rus") in
      let* mas := astype_int (column df "math") in
      let* ins := astype_int (column df "indiv") in
      let* tos := astype_int (column df "total") in
      Ok (zip_rows ids cs prs phs rus mas ins tos)
  end.

(** *** [upsert_competition_list] *)

Definition reconcile (day program now : string) (rows : list nrow) : Tx unit :=
  seq* write (insert_load day program now) in
  seq* tx_for rows (fun r => write (upsert_applicant r)) in
  do* old_ids := read (select_application_ids day program) in
  let new_ids : gset Z := list_to_set (n_id <$> rows) in
  let to_delete := old_ids ∖ new_ids in
  seq* (if decide (to_delete = ∅) then tx_ret tt
       else write (delete_applications day program to_delete)) in
  tx_for rows (fun r => write (upsert_application day program now r)).

(** [now] is the reading of the clock, [faults] the behaviour of the driver;
    the result pairs the outcome seen by the caller with the store left
    behind. *)
Definition upsert_competition_list (faults : option nat) (now : string)
    (d : db) (day program : string) (df : dataframe) : result unit * db :=
  match _normalize_df df with
  | Raise e => (Raise e, d)
  | Ok rows => engine_begin (reconcile day program now rows) faults d
  end.

(** *** Read queries *)

(** The join of [compute_admission_from_db]: [applications a JOIN applicants
    b ON b.id = a.applicant_id WHERE a.day = :d].  The query has no [ORDER
    BY]: the order of its rows is the store's choice, and [select_day_rows]
    lists them in the order of the keys of [applications]. *)
Definition joined_row (day : string) (kv : string * string * Z * app_fact)
    (apl : gmap Z scores) : option row :=
  if decide (kv.1.1.1 = day) then
    s ← apl !! kv.1.2;
    Some (Row kv.1.2 kv.1.1.2 (a_priority kv.2) (a_consent kv.2) (s_total s))
  else None.

Definition select_day_rows (d : db) (day : string) : list row :=
  omap (fun kv => joined_row day kv (applicants d))
       (map_to_list (applications d)).

Definition compute_admission_from_db (d : db) (day : string)
    : result (gmap string (list Z) * gmap string (option Z)) :=
  compute_admission (select_day_rows d day).

(** [query_program_list]: the [day] filter is applied when [day] is truthy,
    the [consent] filter when [consent in (0, 1)]; [ORDER BY] is applied to
    the rows in the order the store yields them.  Rows with equal sort keys
    come in the store's order, which is here the order of the keys of
    [applications]. *)
Definition day_selected (day : option string) (dy : string) : bool :=
  match day with
  | Some d0 => if decide (d0 = "") then true else bool_decide (dy = d0)
  | None => true
  end.

Definition consent_selected (consent : option Z) (c : Z) : bool :=
  match consent with
  | Some k => if decide (k = 0 ∨ k = 1) then bool_decide (c = k) else true
  | None => true
  end.

Definition program_row (program : string) (day : option string)
    (consent : option Z) (kv : string * string * Z * app_fact)
    (apl : gmap Z scores) : option nrow :=
  if decide (kv.1.1.2 = program) then
    if day_selected day kv.1.1.1 && consent_selected consent (a_consent kv.2)
    then
      s ← apl !! kv.1.2;
      Some (NRow kv.1.2 (a_consent kv.2) (a_priority kv.2)
                 (s_phys s) (s_rus s) (s_math s) (s_indiv s) (s_total s))
    else None
  else None.

Definition order_by (sort : string) (a b : nrow) : bool :=
  if decide (sort = "total_asc")
  then Py.tuple_leb (n_total a, n_id a) (n_total b, n_id b)
  else if decide (sort = "id_asc") then n_id a <=? n_id b
  else Py.tuple_leb (- n_total a, n_id a) (- n_total b, n_id b).

Definition query_program_list (d : db) (program : string)
    (day : option string) (consent : option Z) (sort : string) : list nrow :=
  Py.sorted (order_by sort)
    (omap (fun kv => program_row program day consent kv (applicants d))
          (map_to_list (applications d))).

End Store.

(** ** Reference descriptions

    What the loops above compute, written without the dictionaries' failure
    cases; the theorems relate the code to them. *)

Module Ref.
Import Alloc Store.

(** The applications of applicant [a] among [df], in row order. *)
Definition apps_of (df : list row) (a : Z) : list (Z * string) :=
  (fun r => (r_priority r, r_program r)) <$> filter (fun r => r_id r = a) df.

(** The score table [compute_admission] builds from its input. *)
Definition scores_of (rows : list row) : gmap Z Z := (collect (consenting rows)).2.

Definition total_score (rows : list row) (a : Z) : Z :=
  score_of (scores_of rows) a.

(** Higher score first, ties by ascending id. *)
Definition precedes (scores : gmap Z Z) (a b : Z) : Prop :=
  score_of scores a > score_of scores b ∨
  (score_of scores a = score_of scores b ∧ a < b).

(** The preference list of applicant [a]: programs by ascending priority. *)
Definition prefs_of (rows : list row) (a : Z) : list string :=
  preference_list (apps_of (consenting rows) a).

(** A program has a free seat when its list is shorter than its capacity. *)
Definition free_seat (accepted : gmap string (list Z)) (p : string) : bool :=
  match accepted !! p, SEATS !! p with
  | Some l, Some cap => Z.of_nat (length l) <? cap
  | _, _ => false
  end.

Fixpoint first_free (accepted : gmap string (list Z)) (progs : list string)
    : option string :=
  match progs with
  | [] => None
  | p :: rest => if free_seat accepted p then Some p else first_free accepted rest
  end.

(** Assign [a] to the first program of [progs] with a free seat, if any. *)
Definition assign_first (accepted : gmap string (list Z)) (a : Z)
    (progs : list string) : gmap string (list Z) :=
  match first_free accepted progs with
  | Some p => <[p := (accepted !!! p) ++ [a]]> accepted
  | None => accepted
  end.

Definition greedy (rows : list row) : gmap string (list Z) :=
  foldl (fun acc a => assign_first acc a (prefs_of rows a)) init_accepted
        (processing_order (scores_of rows)).

(** What holds of the assignment after the applicants [pre] have been
    processed: the configured programs are the keys, every list is a
    subsequence of [pre], no applicant sits in two lists, no list exceeds its
    capacity. *)
Definition alloc_inv (pre : list Z) (accepted : gmap string (list Z)) : Prop :=
  dom accepted = dom SEATS ∧
  (∀ p l, accepted !! p = Some l → l `sublist_of` pre) ∧
  (∀ p1 p2 l1 l2 x,
     accepted !! p1 = Some l1 → accepted !! p2 = Some l2 →
     x ∈ l1 → x ∈ l2 → p1 = p2) ∧
  (∀ p l cap,
     accepted !! p = Some l → SEATS !! p = Some cap → Z.of_nat (length l) ≤ cap).

(** A transaction is faithful when a run that the driver lets through leaves
    what an undisturbed run leaves. *)
Definition faithful {A} (m : Tx A) : Prop :=
  ∀ d n a c, m (d, n) = Ok (a, c) → m (d, None) = Ok (a, (c.1, None)).

(** What a batch row writes into [applicants] and into [applications], and
    the last row of a batch that carries a given id. *)
Definition row_scores (r : nrow) : scores :=
  Scores (n_phys r) (n_rus r) (n_math r) (n_indiv r) (n_total r).

Definition row_fact (now : string) (r : nrow) : app_fact :=
  AppFact (n_consent r) (n_priority r) now.

(** The same application fact with upload time [now]. *)
Definition restamp (now : string) (f : app_fact) : app_fact :=
  AppFact (a_consent f) (a_priority f) now.

Definition last_row (rows : list nrow) (i : Z) : option nrow :=
  last (filter (fun r => n_id r = i) rows).

Definition batch_ids (rows : list nrow) : gset Z := list_to_set (n_id <$> rows).

(** The store a committed reconciliation leaves behind. *)
Definition reconciled (day program now : string) (rows : list nrow) (d : db)
    : db :=
  let d1 := insert_load day program now d in
  let d2 := foldl (fun d r => upsert_applicant r d) d1 rows in
  let old_ids := select_application_ids day program d2 in
  let new_ids : gset Z := list_to_set (n_id <$> rows) in
  let to_delete := old_ids ∖ new_ids in
  let d3 := if decide (to_delete = ∅) then d2
            else delete_applications day program to_delete d2 in
  foldl (fun d r => upsert_application day program now r d) d3 rows.

End Ref.

(** ** Sample inputs *)

Module Samples.
Import Alloc Store.

(** Two applicants competing for the same first choice. *)
Definition two_applicants : list row :=
  [Row 1 "PM" 1 1 90; Row 1 "IB" 2 1 90; Row 2 "PM" 1 1 95].

(** [n] applicants with ids [1..n] and totals [299, 298, ...], each ranking
    IB first and PM second, all consenting. *)
Definition crowd (n : nat) : list row :=
  flat_map (fun i : nat =>
              [Row (Z.of_nat i) "IB" 1 1 (300 - Z.of_nat i);
               Row (Z.of_nat i) "PM" 2 1 (300 - Z.of_nat i)])
           (seq 1 n).

Definition crowd_accepted : gmap string (list Z) :=
  Eval vm_compute in
    match compute_admission (crowd 21) with
    | Ok res => res.1
    | Raise _ => ∅
    end.

Definition crowd_cut : gmap string (option Z) :=
  Eval vm_compute in
    match compute_admission (crowd 21) with
    | Ok res => res.2
    | Raise _ => ∅
    end.

(** One consenting application to a program that is not configured. *)
Definition stray_program : list row := [Row 3 "XX" 1 1 10].

(** An applicant who consents nowhere next to one who does. *)
Definition one_refusal : list row :=
  [Row 7 "PM" 1 0 50; Row 7 "IB" 2 0 50; Row 8 "PM" 1 1 40].

(** The data frame whose rows are [rows]. *)
Definition frame (rows : list nrow) : dataframe :=
  list_to_map
    [("id", (fun r => IntLike (n_id r)) <$> rows);
     ("consent", (fun r => IntLike (n_consent r)) <$> rows);
     ("priority", (fun r => IntLike (n_priority r)) <$> rows);
     ("phys", (fun r => IntLike (n_phys r)) <$> rows);
     ("rus", (fun r => IntLike (n_rus r)) <$> rows);
     ("math", (fun r => IntLike (n_math r)) <$> rows);
     ("indiv", (fun r => IntLike (n_indiv r)) <$> rows);
     ("total", (fun r => IntLike (n_total r)) <$> rows)].

Definition batch_123 : list nrow :=
  [NRow 1 1 1 70 80 90 5 245; NRow 2 1 2 60 70 80 0 210; NRow 3 0 1 90 90 90 10 280].

Definition batch_234 : list nrow :=
  [NRow 2 1 2 60 70 80 0 210; NRow 3 0 1 90 90 90 10 280; NRow 4 1 1 50 50 50 0 150].

(** The store after [batch_123] was uploaded for day D, program PM. *)
Definition store_123 : db :=
  (upsert_competition_list None "t0" empty_db "D" "PM" (frame batch_123)).2.

(** The frame of [batch_234] without its [total] column, and with the
    [priority] column replaced by one that does not coerce. *)
Definition frame_no_total : dataframe := delete "total" (frame batch_234).

Definition frame_bad_cell (c : cell) : dataframe :=
  <["priority" := [IntLike 2; c; IntLike 1]]> (frame batch_234).

(** A day on which the only stored application carries no consent. *)
Definition batch_refusal : list nrow := [NRow 7 0 1 10 20 20 0 50].

Definition store_refusal : db :=
  (upsert_competition_list None "t0" empty_db "D" "PM" (frame batch_refusal)).2.

End Samples.

(** ** Further reference descriptions *)

Module RefMore.
Import Alloc Store Ref.

(** Every application row refers to an applicant that has a score row. *)
Definition referenced (d : db) : Prop :=
  ∀ dy pg i f, applications d !! (dy, pg, i) = Some f → is_Some (applicants d !! i).

End RefMore.

(** ** The cascade view *)

From stdpp Require Import pretty.

Local Open Scope string_scope.
Local Open Scope list_scope.
Local Open Scope Z_scope.

Module Views.
Import Alloc Store.

(** The join of [query_all_applicants_with_cascade]; the [WHERE a.day = :d]
    clause is added when [day] is truthy. *)
Definition cascade_row (day : option string) (kv : string * string * Z * app_fact)
    (apl : gmap Z scores) : option row :=
  if day_selected day kv.1.1.1 then
    s ← apl !! kv.1.2;
    Some (Row kv.1.2 kv.1.1.2 (a_priority kv.2) (a_consent kv.2) (s_total s))
  else None.

(** The rows of the join, each one once. *)
Definition select_rows (d : db) (day : option string) : list row :=
  omap (fun kv => cascade_row day kv (applicants d))
       (map_to_list (applications d)).

(** The query has no [ORDER BY], so the order of its rows is the store's
    choice: [rows] is a result of the query when it holds the selected rows
    in some order. *)
Definition yields (d : db) (day : option string) (rows : list row) : Prop :=
  rows ≡ₚ select_rows d day.

(** [per[int(r["id"])].append(r)] on a [defaultdict(list)]. *)
Definition group_step (per : gmap Z (list row)) (r : row) : gmap Z (list row) :=
  <[r_id r := (per !!! r_id r) ++ [r]]> per.

Definition group (rows : list row) : gmap Z (list row) :=
  foldl group_step ∅ rows.

(** One entry of the result: id, any_consent, max_total, cascade. *)
Record card : Type := Card {
  c_id : Z;
  c_any_consent : bool;
  c_max_total : Z;
  c_cascade : string
}.

(** [max(...)] of a sequence: [ValueError] when it is empty. *)
Definition py_max (l : list Z) : result Z :=
  match l with
  | [] => Raise ValueError
  | x :: l' => Ok (foldl Z.max x l')
  end.

(** [f'{it["program"]}:{it["priority"]}'] and [", ".join(...)]. *)
Definition cascade_item (it : row) : string :=
  r_program it +:+ ":" +:+ pretty (r_priority it).

Definition cascade_of (items : list row) : string :=
  String.concat ", "
    (cascade_item <$> Py.sorted (fun a b => r_priority a <=? r_priority b) items).

Definition card_of (aid : Z) (items : list row) : result card :=
  let cascade := cascade_of items in
  let any_consent := existsb (fun it => r_consent it =? 1) items in
  let* max_total := py_max (r_total <$> items) in
  Ok (Card aid any_consent max_total cascade).

Fixpoint cards (per : list (Z * list row)) : result (list card) :=
  match per with
  | [] => Ok []
  | (aid, items) :: rest =>
      let* c := card_of aid items in
      let* cs := cards rest in
      Ok (c :: cs)
  end.

Definition card_leb (a b : card) : bool :=
  Py.tuple_leb (- c_max_total a, c_id a) (- c_max_total b, c_id b).

(** [out[:limit]] for an integer [limit]: a negative one counts from the
    end. *)
Definition slice_to {A} (limit : Z) (l : list A) : list A :=
  if 0 <=? limit then take (Z.to_nat limit) l
  else take (Z.to_nat (Z.of_nat (length l) + limit)) l.

(** [query_all_applicants_with_cascade] from the point where the query has
    returned [rows].  The order of [per.items()] is immaterial: [out] is
    sorted by a key that no two of its entries share. *)
Definition query_all_applicants_with_cascade (rows : list row) (limit : Z)
    : result (list card) :=
  let per := group rows in
  let* out := cards (map_to_list per) in
  Ok (slice_to limit (Py.sorted card_leb out)).

(** What a card says about the rows of its applicant, taken in the order
    of [rows]. *)
Definition card_for (rows : list row) (c : card) : Prop :=
  let items := filter (fun r => r_id r = c_id c) rows in
  items ≠ [] ∧
  (c_any_consent c = true ↔ ∃ r, r ∈ items ∧ r_consent r = 1) ∧
  (∀ r, r ∈ items → r_total r ≤ c_max_total c) ∧
  (∃ r, r ∈ items ∧ r_total r = c_max_total c) ∧
  c_cascade c = cascade_of items.

(** Higher [max_total] first, ties by ascending id. *)
Definition card_before (a b : card) : Prop :=
  c_max_total a > c_max_total b ∨ (c_max_total a = c_max_total b ∧ c_id a < c_id b).

End Views.

(** ** Further sample inputs *)

Module SamplesMore.
Import Alloc Store Samples.

(** [store_123] after [batch_234] was uploaded for day E, program IB. *)
Definition store_two_days : db :=
  (upsert_competition_list None "t1" store_123 "E" "IB" (frame batch_234)).2.


Definition rows_day_E : list row :=
  [Row 2 "IB" 2 1 210; Row 3 "IB" 1 0 280; Row 4 "IB" 1 1 150].

End SamplesMore.

(** ** Per-priority statistics *)

Module Stats.
Import Alloc Store.

(** One more row in the group [k] of a [GROUP BY]. *)
Definition bump (k : string * Z) (m : gmap (string * Z) Z) : gmap (string * Z) Z :=
  <[k := default 0 (m !! k) + 1]> m.

(** [SELECT a.program, a.priority, COUNT( * ) FROM applications a WHERE
    a.day = :d GROUP BY a.program, a.priority], as the dictionary
    [appl_map]. *)
Definition appl_counts (d : db) (day : string) : gmap (string * Z) Z :=
  foldl (fun m kv => if decide (kv.1.1.1 = day)
                     then bump (kv.1.1.2, a_priority kv.2) m else m)
        ∅ (map_to_list (applications d)).

(** The second query: the join restricted to [a.day = :d AND a.consent = 1]. *)
Definition consenting_row (day : string) (kv : string * string * Z * app_fact)
    (apl : gmap Z scores) : option row :=
  if decide (kv.1.1.1 = day ∧ a_consent kv.2 = 1) then
    s ← apl !! kv.1.2;
    Some (Row kv.1.2 kv.1.1.2 (a_priority kv.2) (a_consent kv.2) (s_total s))
  else None.

Definition select_consenting_rows (d : db) (day : string) : list row :=
  omap (fun kv => consenting_row day kv (applicants d))
       (map_to_list (applications d)).

(** [{(p, pr): 0 for p in PROGRAMS for pr in (1, 2, 3, 4)}] *)
Definition init_counts : gmap (string * Z) Z :=
  foldl (fun m k => <[k := 0]> m) ∅
        (p ← PROGRAMS; pr ← [1; 2; 3; 4]; [(p, pr)]).

(** The loop over the consenting rows: [if aid in accepted_set[prog]:
    accepted_pr_counts[(prog, pr)] += 1]. *)
Fixpoint tally (accepted_map : gmap string (list Z))
    (counts : gmap (string * Z) Z) (rows : list row)
    : result (gmap (string * Z) Z) :=
  match rows with
  | [] => Ok counts
  | r :: rest =>
      let* l := subscript accepted_map (r_program r) in
      if decide (r_id r ∈ l) then
        let* n := subscript counts (r_program r, r_priority r) in
        tally accepted_map (<[(r_program r, r_priority r) := n + 1]> counts) rest
      else tally accepted_map counts rest
  end.

Definition _stats_for_day (d : db) (day : string)
    : result (gmap (string * Z) Z * gmap (string * Z) Z *
              gmap string (list Z) * gmap string (option Z)) :=
  let appl_map := appl_counts d day in
  let* res := compute_admission_from_db d day in
  let rows := select_consenting_rows d day in
  let* accepted_pr_counts :=
    match rows with
    | [] => Ok init_counts
    | _ => let* res2 := compute_admission rows in tally res2.1 init_counts rows
    end in
  Ok (appl_map, accepted_pr_counts, res.1, res.2).

(** The number of rows of [rows] for program [p] with priority [pr] whose
    applicant is on the list [l]. *)
Definition admitted_with (p : string) (pr : Z) (l : list Z) (rows : list row) : Z :=
  Z.of_nat (length (filter (fun r => r_program r = p ∧ r_priority r = pr ∧ r_id r ∈ l)
                           rows)).

(** The count stored under [k], 0 when there is none. *)
Definition count_at (m : gmap (string * Z) Z) (k : string * Z) : Z :=
  default 0 (m !! k).

(** A store with one consenting application of priority 5. *)
Definition store_priority_5 : db :=
  (upsert_competition_list None "t0" empty_db "D" "PM"
     (Samples.frame [NRow 1 1 5 0 0 0 0 9])).2.

(** The statistics of day D in [store_two_days]. *)
Definition stats_day_D
    : gmap (string * Z) Z * gmap (string * Z) Z *
      gmap string (list Z) * gmap string (option Z) :=
  Eval vm_compute in
    match _stats_for_day SamplesMore.store_two_days "D" with
    | Ok res => res
    | Raise _ => (∅, ∅, ∅, ∅)
    end.

End Stats.

(** ** The sample-data generator: [exclusive_counts]

    [generate_lists.py] turns, for a day, the sizes of the programs'
    applicant sets and of their intersections into the number of applicants
    that applied to exactly a given set of programs. *)

Module Generator.
Import Alloc.

(** The tables [totals], [pair_intersections] and [triple_intersections];
    tuples of programs are lists, a [frozenset] of programs is a [gset]. *)
Definition day_table (K : Type) `{Countable K} : Type := gmap string (gmap K Z).

Definition table_of {K} `{Countable K} (rows : list (string * list (K * Z)))
    : day_table K :=
  list_to_map (prod_map id list_to_map <$> rows).

Definition totals : day_table string :=
  table_of
    [("2024-08-01", [("PM", 60); ("IVT", 100); ("ITSS", 50); ("IB", 70)]);
     ("2024-08-02", [("PM", 380); ("IVT", 370); ("ITSS", 350); ("IB", 260)]);
     ("2024-08-03", [("PM", 1000); ("IVT", 1150); ("ITSS", 1050); ("IB", 800)]);
     ("2024-08-04", [("PM", 1240); ("IVT", 1390); ("ITSS", 1240); ("IB", 1190)])].

Definition pair_intersections : day_table (string * string) :=
  table_of
    [("2024-08-01",
      [(("PM", "IVT"), 22); (("PM", "ITSS"), 17); (("PM", "IB"), 20);
       (("IVT", "ITSS"), 19); (("IVT", "IB"), 22); (("ITSS", "IB"), 17)]);
     ("2024-08-02",
      [(("PM", "IVT"), 190); (("PM", "ITSS"), 190); (("PM", "IB"), 150);
       (("IVT", "ITSS"), 190); (("IVT", "IB"), 140); (("ITSS", "IB"), 120)]);
     ("2024-08-03",
      [(("PM", "IVT"), 760); (("PM", "ITSS"), 600); (("PM", "IB"), 410);
       (("IVT", "ITSS"), 750); (("IVT", "IB"), 460); (("ITSS", "IB"), 500)]);
     ("2024-08-04",
      [(("PM", "IVT"), 1090); (("PM", "ITSS"), 1110); (("PM", "IB"), 1070);
       (("IVT", "ITSS"), 1050); (("IVT", "IB"), 1040); (("ITSS", "IB"), 1090)])].

Definition triple_intersections : day_table (list string) :=
  table_of
    [("2024-08-01",
      [(["PM"; "IVT"; "ITSS"], 5); (["PM"; "IVT"; "IB"], 5);
       (["IVT"; "ITSS"; "IB"], 5); (["PM"; "ITSS"; "IB"], 5);
       (["PM"; "IVT"; "ITSS"; "IB"], 3)]);
     ("2024-08-02",
      [(["PM"; "IVT"; "ITSS"], 70); (["PM"; "IVT"; "IB"], 70);
       (["IVT"; "ITSS"; "IB"], 70); (["PM"; "ITSS"; "IB"], 70);
       (["PM"; "IVT"; "ITSS"; "IB"], 50)]);
     ("2024-08-03",
      [(["PM"; "IVT"; "ITSS"], 500); (["PM"; "IVT"; "IB"], 260);
       (["IVT"; "ITSS"; "IB"], 300); (["PM"; "ITSS"; "IB"], 250);
       (["PM"; "IVT"; "ITSS"; "IB"], 200)]);
     ("2024-08-04",
      [(["PM"; "IVT"; "ITSS"], 1020); (["PM"; "IVT"; "IB"], 1020);
       (["IVT"; "ITSS"; "IB"], 1000); (["PM"; "ITSS"; "IB"], 1040);
       (["PM"; "IVT"; "ITSS"; "IB"], 1000)])].

Definition days : list string :=
  ["2024-08-01"; "2024-08-02"; "2024-08-03"; "2024-08-04"].

(** [itertools.combinations(l, 2)] *)
Fixpoint combinations2 {A} (l : list A) : list (A * A) :=
  match l with
  | [] => []
  | x :: rest => ((fun y => (x, y)) <$> rest) ++ combinations2 rest
  end.

(** [tbl.get((x, y), tbl[(y, x)])]: the default is an argument, so it is
    evaluated, and may raise, before [get] is called. *)
Definition pair_size (tbl : gmap (string * string) Z) (x y : string) : result Z :=
  let* reversed := subscript tbl (y, x) in
  Ok (default reversed (tbl !! (x, y))).

Fixpoint pair_sizes (tbl : gmap (string * string) Z) (I : gmap (list string) Z)
    (pairs : list (string * string)) : result (gmap (list string) Z) :=
  match pairs with
  | [] => Ok I
  | (x, y) :: rest =>
      let* n := pair_size tbl x y in
      pair_sizes tbl (<[[x; y] := n]> I) rest
  end.

Fixpoint tuple_sizes (tbl : gmap (list string) Z) (I : gmap (list string) Z)
    (tuples : list (list string)) : result (gmap (list string) Z) :=
  match tuples with
  | [] => Ok I
  | t :: rest =>
      let* n := subscript tbl t in
      tuple_sizes tbl (<[t := n]> I) rest
  end.

(** [sum(c for pat, c in only.items() if p in pat and len(pat) >= 2)] *)
Definition shared_with (p : string) (only : gmap (gset string) Z) : Z :=
  foldr Z.add 0
    ((fun kv => kv.2) <$>
       filter (fun kv : gset string * Z => p ∈ kv.1 ∧ (2 ≤ size kv.1)%nat)
              (map_to_list only)).

Fixpoint alone (tot : gmap string Z) (only : gmap (gset string) Z)
    (progs : list string) : result (gmap (gset string) Z) :=
  match progs with
  | [] => Ok only
  | p :: rest =>
      let* t := subscript tot p in
      let s := shared_with p only in
      alone tot (<[{[p]} := t - s]> only) rest
  end.

Section ExclusiveCounts.
Context (A B C D : string).

(** The eleven assignments to [only] for the sets of two or more programs. *)
Definition several (I : gmap (list string) Z) : result (gmap (gset string) Z) :=
  let* abcd := subscript I [A; B; C; D] in
  let only : gmap (gset string) Z := <[list_to_set [A; B; C; D] := abcd]> ∅ in
  let* abc := subscript I [A; B; C] in
  let* n := subscript only (list_to_set [A; B; C; D]) in
  let only := <[list_to_set [A; B; C] := abc - n]> only in
  let* abd := subscript I [A; B; D] in
  let* n := subscript only (list_to_set [A; B; C; D]) in
  let only := <[list_to_set [A; B; D] := abd - n]> only in
  let* acd := subscript I [A; C; D] in
  let* n := subscript only (list_to_set [A; B; C; D]) in
  let only := <[list_to_set [A; C; D] := acd - n]> only in
  let* bcd := subscript I [B; C; D] in
  let* n := subscript only (list_to_set [A; B; C; D]) in
  let only := <[list_to_set [B; C; D] := bcd - n]> only in
  let* ab := subscript I [A; B] in
  let only := <[list_to_set [A; B] := ab - abc - abd + abcd]> only in
  let* ac := subscript I [A; C] in
  let only := <[list_to_set [A; C] := ac - abc - acd + abcd]> only in
  let* ad := subscript I [A; D] in
  let only := <[list_to_set [A; D] := ad - abd - acd + abcd]> only in
  let* bc := subscript I [B; C] in
  let only := <[list_to_set [B; C] := bc - abc - bcd + abcd]> only in
  let* bd := subscript I [B; D] in
  let only := <[list_to_set [B; D] := bd - abd - bcd + abcd]> only in
  let* cd := subscript I [C; D] in
  let only := <[list_to_set [C; D] := cd - acd - bcd + abcd]> only in
  Ok only.
End ExclusiveCounts.

Definition exclusive_counts_on (tot : day_table string)
    (pairs : day_table (string * string)) (triples : day_table (list string))
    (day : string) : result (gmap (gset string) Z) :=
  match PROGRAMS with
  | [A; B; C; D] =>
      let* pair_tbl := subscript pairs day in
      let* I := pair_sizes pair_tbl ∅ (combinations2 PROGRAMS) in
      let* triple_tbl := subscript triples day in
      let* I := tuple_sizes triple_tbl I
                  [[A; B; C]; [A; B; D]; [B; C; D]; [A; C; D]; [A; B; C; D]] in
      let* only := several A B C D I in
      let* tot_tbl := subscript tot day in
      alone tot_tbl only PROGRAMS
  | _ => Raise ValueError
  end.

Definition exclusive_counts (day : string) : result (gmap (gset string) Z) :=
  exclusive_counts_on totals pair_intersections triple_intersections day.

(** The number of applicants whose set of programs includes all of [ps],
    read off the exclusive counts. *)
Definition covering (ps : list string) (only : gmap (gset string) Z) : Z :=
  foldr Z.add 0
    ((fun kv => kv.2) <$>
       filter (fun kv : gset string * Z => list_to_set ps ⊆ kv.1)
              (map_to_list only)).

(** The pair table with every pair entered in both orders. *)
Definition both_orders (t : day_table (string * string)) : day_table (string * string) :=
  (fun m => m ∪ list_to_map ((fun kv : string * string * Z => ((kv.1.2, kv.1.1), kv.2))
                               <$> map_to_list m)) <$> t.

Definition counts_both_orders : gmap (gset string) Z :=
  match exclusive_counts_on totals (both_orders pair_intersections)
          triple_intersections "2024-08-01" with
  | Ok only => only
  | Raise _ => ∅
  end.

End Generator.

(** * Properties *)

(** ** [sorted] sorts and permutes *)

Module PyFacts.
Section Sorted.
Context {A : Type} (kle : A → A → bool).
Hypothesis kle_total : ∀ x y, kle x y = false → kle y x = true.
Hypothesis kle_trans : ∀ x y z, kle x y = true → kle y z = true → kle x z = true.

Lemma insert_stable_perm x l : Py.insert_stable kle x l ≡ₚ x :: l.
Proof using Type.
  induction l as [|y l IH]; simpl; [done|].
  destruct (kle x y); [done|].
  rewrite IH. apply Permutation_swap.
Qed.

Lemma sorted_perm l : Py.sorted kle l ≡ₚ l.
Proof using Type.
  induction l as [|x l IH]; simpl; [done|].
  rewrite insert_stable_perm. by rewrite IH.
Qed.

Lemma insert_stable_sorted x l :
  StronglySorted (fun a b => kle a b = true) l →
  StronglySorted (fun a b => kle a b = true) (Py.insert_stable kle x l).
Proof using kle_total kle_trans.
  induction 1 as [|y l Hs IH Hall]; simpl.
  - repeat constructor.
  - destruct (kle x y) eqn:Hxy.
    + constructor; [by constructor|].
      constructor; [done|].
      eapply Forall_impl; [exact Hall|]. intros z Hz. by eapply kle_trans.
    + constructor; [done|].
      rewrite insert_stable_perm. constructor; [by apply kle_total|done].
Qed.

Lemma sorted_sorted l : StronglySorted (fun a b => kle a b = true) (Py.sorted kle l).
Proof using kle_total kle_trans.
  induction l as [|x l IH]; simpl; [constructor|].
  by apply insert_stable_sorted.
Qed.
End Sorted.

Lemma sorted_elem_of {A} (kle : A → A → bool) l x : x ∈ Py.sorted kle l ↔ x ∈ l.
Proof. by rewrite sorted_perm. Qed.

Lemma sorted_NoDup {A} (kle : A → A → bool) l : NoDup l → NoDup (Py.sorted kle l).
Proof. by rewrite sorted_perm. Qed.

Lemma tuple_leb_spec x y :
  Py.tuple_leb x y = true ↔ x.1 < y.1 ∨ (x.1 = y.1 ∧ x.2 ≤ y.2).
Proof.
  unfold Py.tuple_leb.
  rewrite orb_true_iff, andb_true_iff, Z.ltb_lt, Z.eqb_eq, Z.leb_le. tauto.
Qed.

Lemma tuple_leb_total x y : Py.tuple_leb x y = false → Py.tuple_leb y x = true.
Proof.
  intros Hf. apply tuple_leb_spec.
  destruct (Py.tuple_leb x y) eqn:E; [done|].
  assert (¬ (x.1 < y.1 ∨ (x.1 = y.1 ∧ x.2 ≤ y.2))) by (rewrite <- tuple_leb_spec; congruence).
  lia.
Qed.

Lemma tuple_leb_trans x y z :
  Py.tuple_leb x y = true → Py.tuple_leb y z = true → Py.tuple_leb x z = true.
Proof. rewrite !tuple_leb_spec. lia. Qed.

(** A strongly sorted list without duplicates is strictly sorted. *)
Lemma StronglySorted_strict {A} (R : relation A) l :
  StronglySorted R l → NoDup l → StronglySorted (fun a b => R a b ∧ a ≠ b) l.
Proof.
  induction 1 as [|x l Hs IH Hall]; intros Hnd; [constructor|].
  apply NoDup_cons in Hnd as [Hx Hnd].
  constructor; [by apply IH|].
  apply Forall_forall. intros y Hy. split.
  - by eapply Forall_forall in Hall.
  - intros ->. done.
Qed.

Lemma StronglySorted_impl {A} (R S : relation A) l :
  (∀ a b, R a b → S a b) → StronglySorted R l → StronglySorted S l.
Proof.
  intros HRS. induction 1 as [|x l Hs IH Hall]; constructor; [done|].
  eapply Forall_impl; eauto.
Qed.

Lemma StronglySorted_sublist {A} (R : relation A) l k :
  l `sublist_of` k → StronglySorted R k → StronglySorted R l.
Proof.
  induction 1 as [|x l k Hsub IH|x l k Hsub IH]; intros Hs; [done| |].
  - apply StronglySorted_cons in Hs as [Hall Hs].
    apply StronglySorted_cons. split; [|by apply IH].
    eapply Forall_forall. intros y Hy.
    eapply Forall_forall in Hall; [done|]. by eapply sublist_subseteq.
  - apply StronglySorted_cons in Hs as [_ Hs]. by apply IH.
Qed.

(** The last element of a strongly sorted list is above all the others. *)
Lemma StronglySorted_last {A} (R : relation A) l x y :
  StronglySorted R l → last l = Some x → y ∈ l → y = x ∨ R y x.
Proof.
  intros Hs Hlast Hy.
  apply last_Some in Hlast as [l' ->].
  apply elem_of_app in Hy as [Hy|Hy].
  - right. eapply StronglySorted_app_1_elem_of; [done..|]. set_solver.
  - left. set_solver.
Qed.
End PyFacts.

(** ** The allocation engine *)

Module AllocFacts.
Import Alloc Ref.

(** *** The configuration *)

Lemma SEATS_lookup p cap :
  SEATS !! p = Some cap ↔
  (p = "PM" ∧ cap = 40) ∨ (p = "IVT" ∧ cap = 50) ∨
  (p = "ITSS" ∧ cap = 30) ∨ (p = "IB" ∧ cap = 20).
Proof.
  unfold SEATS. rewrite !lookup_insert_Some, lookup_empty.
  split; [naive_solver|].
  intros [[-> ->]|[[-> ->]|[[-> ->]|[-> ->]]]]; naive_solver.
Qed.

Lemma elem_of_PROGRAMS p :
  p ∈ PROGRAMS ↔ p = "PM" ∨ p = "IVT" ∨ p = "ITSS" ∨ p = "IB".
Proof. unfold PROGRAMS. set_solver. Qed.

Lemma SEATS_known p : p ∈ PROGRAMS ↔ is_Some (SEATS !! p).
Proof.
  rewrite elem_of_PROGRAMS. unfold is_Some.
  setoid_rewrite SEATS_lookup. naive_solver.
Qed.

Lemma SEATS_positive p cap : SEATS !! p = Some cap → 0 < cap.
Proof. rewrite SEATS_lookup. lia. Qed.

Lemma init_accepted_lookup p l :
  init_accepted !! p = Some l ↔ p ∈ PROGRAMS ∧ l = [].
Proof.
  rewrite elem_of_PROGRAMS. unfold init_accepted. simpl.
  rewrite !lookup_insert_Some, lookup_empty.
  split; [naive_solver|].
  intros [[ -> | [ -> | [ -> | -> ]]] ->]; naive_solver.
Qed.

Lemma init_cut_lookup p c :
  init_cut !! p = Some c ↔ p ∈ PROGRAMS ∧ c = None.
Proof.
  rewrite elem_of_PROGRAMS. unfold init_cut. simpl.
  rewrite !lookup_insert_Some, lookup_empty.
  split; [naive_solver|].
  intros [[ -> | [ -> | [ -> | -> ]]] ->]; naive_solver.
Qed.

Lemma dom_init_accepted : dom init_accepted = dom SEATS.
Proof.
  apply set_eq. intros p. rewrite !elem_of_dom, <- SEATS_known.
  unfold is_Some. setoid_rewrite init_accepted_lookup. naive_solver.
Qed.

(** *** The tables built from the input rows *)

Lemma collect_snoc df r : collect (df ++ [r]) = collect_step (collect df) r.
Proof. unfold collect. by rewrite foldl_snoc. Qed.

Lemma apps_of_snoc df r a :
  apps_of (df ++ [r]) a =
  apps_of df a ++ (if decide (r_id r = a) then [(r_priority r, r_program r)] else []).
Proof.
  unfold apps_of. rewrite filter_app, fmap_app. f_equal.
  rewrite filter_cons, filter_nil. by destruct (decide (r_id r = a)).
Qed.

Lemma collect_apps df a : (collect df).1 !!! a = apps_of df a.
Proof.
  induction df as [|r df IH] using rev_ind.
  - unfold collect. simpl. by rewrite lookup_total_empty.
  - rewrite collect_snoc, apps_of_snoc. unfold collect_step. simpl.
    destruct (decide (r_id r = a)) as [->|Hne].
    + by rewrite lookup_total_insert_eq, IH.
    + by rewrite lookup_total_insert_ne, IH, app_nil_r.
Qed.

Lemma collect_scores_lookup df a s :
  (collect df).2 !! a = Some s → ∃ r, r ∈ df ∧ r_id r = a ∧ r_total r = s.
Proof.
  induction df as [|r df IH] using rev_ind.
  - unfold collect. simpl. by rewrite lookup_empty.
  - rewrite collect_snoc. unfold collect_step. simpl.
    rewrite lookup_insert_Some. intros [[<- <-]|[Hne Hs]].
    + exists r. set_solver.
    + destruct (IH Hs) as (r' & ? & ? & ?). exists r'. set_solver.
Qed.

Lemma collect_scores_dom df a :
  a ∈ dom (collect df).2 ↔ ∃ r, r ∈ df ∧ r_id r = a.
Proof.
  induction df as [|r df IH] using rev_ind.
  - unfold collect. simpl. set_solver.
  - rewrite collect_snoc. unfold collect_step. simpl.
    rewrite dom_insert, elem_of_union, IH, elem_of_singleton.
    setoid_rewrite elem_of_app. setoid_rewrite list_elem_of_singleton.
    naive_solver.
Qed.

Lemma preference_lookup df a :
  (preference_list <$> (collect df).1) !!! a = preference_list (apps_of df a).
Proof.
  rewrite <- collect_apps, !lookup_total_alt, lookup_fmap.
  by destruct ((collect df).1 !! a).
Qed.

Lemma elem_of_consenting rows r :
  r ∈ consenting rows ↔ r ∈ rows ∧ r_consent r = 1.
Proof. unfold consenting. rewrite list_elem_of_filter. tauto. Qed.

(** *** The processing order *)

Lemma order_leb_spec scores i j :
  order_leb scores i j = true ↔
  score_of scores i > score_of scores j ∨
  (score_of scores i = score_of scores j ∧ i ≤ j).
Proof. unfold order_leb, order_key. rewrite PyFacts.tuple_leb_spec. simpl. lia. Qed.

Lemma processing_order_elem_of scores a :
  a ∈ processing_order scores ↔ a ∈ dom scores.
Proof. unfold processing_order. by rewrite PyFacts.sorted_elem_of, elem_of_elements. Qed.

Lemma processing_order_NoDup scores : NoDup (processing_order scores).
Proof. apply PyFacts.sorted_NoDup, NoDup_elements. Qed.

Lemma processing_order_sorted scores :
  StronglySorted (precedes scores) (processing_order scores).
Proof.
  eapply PyFacts.StronglySorted_impl;
    [|apply PyFacts.StronglySorted_strict;
       [apply (PyFacts.sorted_sorted (order_leb scores))|apply processing_order_NoDup]].
  - intros a b [Hle Hne]. apply order_leb_spec in Hle. unfold precedes. lia.
  - intros x y. unfold order_leb. apply PyFacts.tuple_leb_total.
  - intros x y z. unfold order_leb. apply PyFacts.tuple_leb_trans.
Qed.

(** The order does not depend on the order in which the keys of [scores]
    are enumerated. *)
Lemma processing_order_canonical scores keys :
  keys ≡ₚ elements (dom scores) →
  Py.sorted (order_leb scores) keys = processing_order scores.
Proof.
  intros Hperm.
  assert (Hnd : NoDup keys) by (rewrite Hperm; apply NoDup_elements).
  assert (Hs : ∀ l, NoDup l → StronglySorted (precedes scores) (Py.sorted (order_leb scores) l)).
  { intros l Hl.
    eapply PyFacts.StronglySorted_impl;
      [|apply PyFacts.StronglySorted_strict;
         [apply (PyFacts.sorted_sorted (order_leb scores))|by apply PyFacts.sorted_NoDup]].
    - intros a b [Hle Hne]. apply order_leb_spec in Hle. unfold precedes. lia.
    - intros x y. unfold order_leb. apply PyFacts.tuple_leb_total.
    - intros x y z. unfold order_leb. apply PyFacts.tuple_leb_trans. }
  eapply (StronglySorted_unique_strong (precedes scores)).
  - intros x y _ _ Hxy Hyx. unfold precedes in *. lia.
  - by apply Hs.
  - apply processing_order_sorted.
  - unfold processing_order. by rewrite !PyFacts.sorted_perm.
Qed.

(** *** The scan of one applicant's preference list *)

Lemma scan_assign_first acc a progs acc' :
  scan acc a progs = Ok acc' → acc' = assign_first acc a progs.
Proof.
  unfold assign_first.
  induction progs as [|p progs IH]; simpl; [by intros [= <-]|].
  unfold subscript, free_seat.
  destruct (acc !! p) as [l|] eqn:Hl; simpl; [|done].
  destruct (SEATS !! p) as [cap|]; simpl; [|done].
  destruct (Z.of_nat (length l) <? cap); [|done].
  intros [= <-]. by rewrite (lookup_total_correct _ _ _ Hl).
Qed.

Lemma scan_shape acc a progs acc' :
  scan acc a progs = Ok acc' →
  acc' = acc ∨
  ∃ p l cap, p ∈ progs ∧ acc !! p = Some l ∧ SEATS !! p = Some cap ∧
             Z.of_nat (length l) < cap ∧ acc' = <[p := l ++ [a]]> acc.
Proof.
  induction progs as [|p progs IH]; simpl; [intros [= <-]; by left|].
  unfold subscript.
  destruct (acc !! p) as [l|] eqn:Hl; simpl; [|done].
  destruct (SEATS !! p) as [cap|] eqn:Hcap; simpl; [|done].
  destruct (Z.ltb_spec (Z.of_nat (length l)) cap) as [Hlt|Hge].
  - intros [= <-]. right. exists p, l, cap. set_solver.
  - intros Hscan. destruct (IH Hscan) as [->|(q & l' & cap' & ? & ?)]; [by left|].
    right. exists q, l', cap'. set_solver.
Qed.

Lemma scan_total acc a progs :
  dom acc = dom SEATS → (∀ p, p ∈ progs → p ∈ PROGRAMS) →
  ∃ acc', scan acc a progs = Ok acc'.
Proof.
  intros Hdom. induction progs as [|p progs IH]; intros Hknown; simpl; [eauto|].
  assert (Hp : p ∈ PROGRAMS) by set_solver.
  apply SEATS_known in Hp as Hseats. destruct Hseats as [cap Hcap].
  assert (is_Some (acc !! p)) as [l Hl].
  { apply elem_of_dom. rewrite Hdom. apply elem_of_dom. eauto. }
  unfold subscript. rewrite Hl, Hcap. simpl.
  destruct (Z.of_nat (length l) <? cap); [eauto|].
  apply IH. set_solver.
Qed.

Lemma scan_inv pre acc a progs acc' :
  a ∉ pre → alloc_inv pre acc → scan acc a progs = Ok acc' →
  alloc_inv (pre ++ [a]) acc'.
Proof.
  intros Hfresh (Hdom & Hsub & Hexcl & Hcap) Hscan.
  destruct (scan_shape _ _ _ _ Hscan)
    as [->|(p & l & cap & Hp & Hl & Hseats & Hlt & ->)].
  - split_and!; [done| |done|done].
    intros q k Hk. by apply sublist_inserts_r, (Hsub q).
  - split_and!.
    + rewrite <- Hdom. apply dom_insert_lookup_L. eauto.
    + intros q k. rewrite lookup_insert_Some. intros [[<- <-]|[_ Hk]].
      * apply sublist_app; [by apply (Hsub p)|done].
      * by apply sublist_inserts_r, (Hsub q).
    + assert (Hnew : ∀ q k x, acc !! q = Some k → x ∈ k → x ∈ l ++ [a] → q = p).
      { intros q k x Hk Hxk Hx. apply elem_of_app in Hx as [Hx|Hx].
        - by eapply Hexcl.
        - apply list_elem_of_singleton in Hx as ->.
          destruct Hfresh. eapply sublist_subseteq; [by eapply Hsub|done]. }
      intros p1 p2 l1 l2 x. rewrite !lookup_insert_Some.
      intros [[<- <-]|[Hne1 H1]] [[<- <-]|[Hne2 H2]] Hx1 Hx2; [done| | |].
      * symmetry. by eapply Hnew.
      * by eapply Hnew.
      * by eapply Hexcl.
    + intros q k c. rewrite lookup_insert_Some. intros [[<- <-]|[_ Hk]] Hc.
      * rewrite length_app. simpl. simplify_eq. lia.
      * by eapply Hcap.
Qed.

(** *** The loop over the processing order *)

Lemma allocate_greedy prefs (pref : Z → list string) order acc acc' :
  (∀ a, prefs !!! a = pref a) →
  allocate prefs acc order = Ok acc' →
  acc' = foldl (fun acc a => assign_first acc a (pref a)) acc order.
Proof.
  intros Hpref. revert acc. induction order as [|a order IH]; intros acc; simpl;
    [by intros [= <-]|].
  destruct (scan acc a (prefs !!! a)) as [acc1|] eqn:Hscan; simpl; [|done].
  apply scan_assign_first in Hscan as ->. rewrite Hpref. apply IH.
Qed.

Lemma allocate_inv prefs order pre acc acc' :
  NoDup (pre ++ order) → alloc_inv pre acc →
  allocate prefs acc order = Ok acc' → alloc_inv (pre ++ order) acc'.
Proof.
  revert pre acc. induction order as [|a order IH]; intros pre acc Hnd Hinv; simpl.
  - intros [= <-]. by rewrite app_nil_r.
  - destruct (scan acc a (prefs !!! a)) as [acc1|] eqn:Hscan; simpl; [|done].
    intros Halloc. rewrite cons_middle, app_assoc in Hnd |- *.
    eapply IH; [done| |done].
    eapply scan_inv; [|done..].
    apply NoDup_app in Hnd as [Hnd _]. apply NoDup_app in Hnd as (_ & Hnd & _).
    intros Hin. eapply Hnd; [done|]. by apply list_elem_of_singleton.
Qed.

Lemma allocate_total prefs order acc :
  dom acc = dom SEATS →
  (∀ a p, a ∈ order → p ∈ prefs !!! a → p ∈ PROGRAMS) →
  ∃ acc', allocate prefs acc order = Ok acc'.
Proof.
  revert acc. induction order as [|a order IH]; intros acc Hdom Hknown; simpl;
    [eauto|].
  destruct (scan_total acc a (prefs !!! a) Hdom) as [acc1 Hscan].
  { intros p. apply Hknown. by left. }
  rewrite Hscan. simpl. apply IH.
  - destruct (scan_shape _ _ _ _ Hscan) as [->|(p & l & ? & _ & Hl & _ & _ & ->)];
      [done|].
    rewrite <- Hdom. apply dom_insert_lookup_L. eauto.
  - intros b p Hb. apply Hknown. by right.
Qed.

Lemma alloc_inv_init : alloc_inv [] init_accepted.
Proof.
  split_and!.
  - apply dom_init_accepted.
  - intros p l [_ ->]%init_accepted_lookup. done.
  - intros p1 p2 l1 l2 x [_ ->]%init_accepted_lookup _ Hx. by apply elem_of_nil in Hx.
  - intros p l cap [_ ->]%init_accepted_lookup Hc%SEATS_positive. simpl. lia.
Qed.

(** *** Preference lists *)

Lemma by_priority_perm l : by_priority l ≡ₚ l.
Proof. apply PyFacts.sorted_perm. Qed.

Lemma by_priority_sorted l :
  StronglySorted (fun x y : Z * string => x.1 ≤ y.1) (by_priority l).
Proof.
  eapply PyFacts.StronglySorted_impl; [|apply PyFacts.sorted_sorted].
  - intros a b Hab. by apply Z.leb_le.
  - intros x y Hxy. apply Z.leb_le. apply Z.leb_gt in Hxy. lia.
  - intros x y z Hxy Hyz. apply Z.leb_le. apply Z.leb_le in Hxy, Hyz. lia.
Qed.

Lemma elem_of_apps_of df a x :
  x ∈ apps_of df a ↔
  ∃ r, r ∈ df ∧ r_id r = a ∧ x = (r_priority r, r_program r).
Proof.
  unfold apps_of. rewrite list_elem_of_fmap.
  setoid_rewrite list_elem_of_filter. naive_solver.
Qed.

Lemma elem_of_prefs_of rows a p :
  p ∈ prefs_of rows a ↔
  ∃ r, r ∈ rows ∧ r_consent r = 1 ∧ r_id r = a ∧ r_program r = p.
Proof.
  unfold prefs_of, preference_list. rewrite list_elem_of_fmap. split.
  - intros ([pr q] & -> & Hin). rewrite by_priority_perm in Hin.
    apply elem_of_apps_of in Hin as (r & Hr & Hid & [= -> ->]).
    apply elem_of_consenting in Hr as [Hr Hc]. by exists r.
  - intros (r & Hr & Hc & Hid & <-). exists (r_priority r, r_program r).
    split; [done|]. rewrite by_priority_perm. apply elem_of_apps_of.
    exists r. by rewrite elem_of_consenting.
Qed.

(** *** Cutoffs *)

Lemma cutoffs_lookup acc sc progs cut0 cut p :
  cutoffs acc sc cut0 progs = Ok cut →
  (p ∈ progs → ∃ c, cutoff_of acc sc p = Ok c ∧ cut !! p = Some c) ∧
  (p ∉ progs → cut !! p = cut0 !! p).
Proof.
  revert cut0. induction progs as [|q progs IH]; intros cut0; simpl.
  - intros [= <-]. split; [by intros ?%elem_of_nil|done].
  - destruct (cutoff_of acc sc q) as [c|] eqn:Hc; simpl; [|done].
    intros Hcut. destruct (IH _ Hcut) as [Hin Hout].
    destruct (decide (p ∈ progs)) as [Hp|Hp].
    + split; [by intros _; apply Hin|]. intros Hn. destruct Hn. by right.
    + rewrite (Hout Hp). split.
      * intros [->|?]%elem_of_cons; [|done]. exists c. by rewrite lookup_insert_eq.
      * intros Hn. rewrite lookup_insert_ne; [done|]. intros ->. apply Hn. by left.
Qed.

Lemma cutoffs_total acc sc progs cut0 :
  (∀ p, p ∈ progs → ∃ c, cutoff_of acc sc p = Ok c) →
  ∃ cut, cutoffs acc sc cut0 progs = Ok cut.
Proof.
  revert cut0. induction progs as [|q progs IH]; intros cut0 Hall; simpl; [eauto|].
  destruct (Hall q) as [c ->]; [by left|]. simpl.
  apply IH. intros p Hp. apply Hall. by right.
Qed.

Lemma cutoff_of_total scores acc p :
  alloc_inv (processing_order scores) acc → p ∈ PROGRAMS →
  ∃ c, cutoff_of acc scores p = Ok c.
Proof.
  intros (Hdom & Hsub & _ & _) Hp.
  apply SEATS_known in Hp as [cap Hcap].
  assert (is_Some (acc !! p)) as [l Hl].
  { apply elem_of_dom. rewrite Hdom. apply elem_of_dom. eauto. }
  unfold cutoff_of, subscript. rewrite Hl, Hcap. simpl.
  destruct (Z.ltb_spec (Z.of_nat (length l)) cap) as [Hlt|Hge]; [eauto|].
  apply SEATS_positive in Hcap.
  destruct (last l) as [a|] eqn:Hlast.
  - assert (is_Some (scores !! a)) as [s ->]; [|simpl; eauto].
    apply elem_of_dom, processing_order_elem_of.
    eapply sublist_subseteq; [by eapply Hsub|].
    apply last_Some in Hlast as [l' ->]. set_solver.
  - apply last_None in Hlast as ->. simpl in Hge. lia.
Qed.

(** *** The greedy pass, applicant by applicant *)

Lemma first_free_Some acc progs p :
  first_free acc progs = Some p → p ∈ progs ∧ free_seat acc p = true.
Proof.
  induction progs as [|q progs IH]; simpl; [done|].
  destruct (free_seat acc q) eqn:Hfree.
  - intros [= <-]. split; [by left|done].
  - intros [? ?]%IH. split; [by right|done].
Qed.

Lemma assign_first_shape acc a progs :
  match first_free acc progs with
  | Some p => ∃ l, acc !! p = Some l ∧ assign_first acc a progs = <[p := l ++ [a]]> acc
  | None => assign_first acc a progs = acc
  end.
Proof.
  unfold assign_first. destruct (first_free acc progs) as [p|] eqn:Hfirst; [|done].
  apply first_free_Some in Hfirst as [_ Hfree]. unfold free_seat in Hfree.
  destruct (acc !! p) as [l|] eqn:Hl; [|done].
  exists l. by rewrite (lookup_total_correct _ _ _ Hl).
Qed.

Section Greedy.
Context (pref : Z → list string).
Let step (acc : gmap string (list Z)) (a : Z) := assign_first acc a (pref a).

Lemma greedy_keeps order acc p l x :
  acc !! p = Some l → x ∈ l →
  ∃ l', foldl step acc order !! p = Some l' ∧ x ∈ l'.
Proof using Type.
  revert acc l. induction order as [|a order IH]; intros acc l Hl Hx; simpl; [eauto|].
  pose proof (assign_first_shape acc a (pref a)) as Hshape. fold (step acc a) in Hshape.
  destruct (first_free acc (pref a)) as [q|].
  - destruct Hshape as (k & Hk & ->).
    destruct (decide (q = p)) as [->|Hne].
    + eapply IH; [apply lookup_insert_eq|]. simplify_eq. set_solver.
    + eapply IH; [|done]. by rewrite lookup_insert_ne.
  - rewrite Hshape. by eapply IH.
Qed.

Lemma greedy_origin order acc p l' x :
  foldl step acc order !! p = Some l' → x ∈ l' →
  x ∈ order ∨ ∃ l, acc !! p = Some l ∧ x ∈ l.
Proof using Type.
  revert acc. induction order as [|a order IH]; intros acc Hl' Hx; simpl in *; [eauto|].
  destruct (IH _ Hl' Hx) as [Hin|(l & Hl & Hxl)]; [left; by right|].
  pose proof (assign_first_shape acc a (pref a)) as Hshape. fold (step acc a) in Hshape.
  destruct (first_free acc (pref a)) as [q|].
  - destruct Hshape as (k & Hk & Heq). rewrite Heq in Hl.
    apply lookup_insert_Some in Hl as [[-> <-]|[_ Hl]]; [|eauto].
    apply elem_of_app in Hxl as [Hxl|Hxl]; [eauto|].
    apply list_elem_of_singleton in Hxl as ->. left. by left.
  - rewrite Hshape in Hl. eauto.
Qed.

(** The applicant at a given place of the order ends up on the list of the
    first program that had a free seat when their turn came, and on no
    list if there was none. *)
Lemma greedy_turn pre a post :
  NoDup (pre ++ a :: post) →
  match first_free (foldl step init_accepted pre) (pref a) with
  | Some p => ∃ l, foldl step init_accepted (pre ++ a :: post) !! p = Some l ∧ a ∈ l
  | None => ∀ p l, foldl step init_accepted (pre ++ a :: post) !! p = Some l → a ∉ l
  end.
Proof using Type.
  intros Hnd. rewrite foldl_app. simpl.
  set (before := foldl step init_accepted pre).
  pose proof (assign_first_shape before a (pref a)) as Hshape.
  fold (step before a) in Hshape.
  apply NoDup_app in Hnd as (_ & Hpre & [Hpost _]%NoDup_cons).
  destruct (first_free before (pref a)) as [q|].
  - destruct Hshape as (k & Hk & ->).
    eapply greedy_keeps; [apply lookup_insert_eq|]. set_solver.
  - rewrite Hshape. intros p l Hl Ha.
    destruct (greedy_origin _ _ _ _ _ Hl Ha) as [?|(l0 & Hl0 & Ha0)]; [done|].
    destruct (greedy_origin _ _ _ _ _ Hl0 Ha0) as [?|(l1 & Hl1 & Ha1)].
    + eapply Hpre; [done|by left].
    + apply init_accepted_lookup in Hl1 as [_ ->]. by apply elem_of_nil in Ha1.
Qed.
End Greedy.

(** *** [compute_admission] as a whole *)

Lemma compute_admission_unfold rows acc cut :
  compute_admission rows = Ok (acc, cut) →
  allocate (preference_list <$> (collect (consenting rows)).1) init_accepted
           (processing_order (scores_of rows)) = Ok acc ∧
  cutoffs acc (scores_of rows) ∅ PROGRAMS = Ok cut.
Proof.
  unfold compute_admission, scores_of.
  destruct rows as [|r rows].
  - intros [= <- <-]. by vm_compute.
  - destruct (collect (consenting (r :: rows))) as [apps scores]. cbn [fst snd].
    destruct (allocate _ _ _) as [acc1|] eqn:Halloc; cbn [rbind]; [|done].
    destruct (cutoffs _ _ _ _) as [cut1|] eqn:Hcut; cbn [rbind]; [|done].
    by intros [= <- <-].
Qed.

Lemma compute_admission_inv rows acc cut :
  compute_admission rows = Ok (acc, cut) →
  acc = greedy rows ∧
  alloc_inv (processing_order (scores_of rows)) acc ∧
  cutoffs acc (scores_of rows) ∅ PROGRAMS = Ok cut.
Proof.
  intros [Halloc Hcut]%compute_admission_unfold. split_and!; [| |done].
  - eapply allocate_greedy; [|done].
    intros a. unfold prefs_of. by rewrite preference_lookup.
  - eapply (allocate_inv _ _ []); [|apply alloc_inv_init|done].
    apply processing_order_NoDup.
Qed.

Lemma compute_admission_total rows :
  (∀ r, r ∈ rows → r_consent r = 1 → r_program r ∈ PROGRAMS) →
  ∃ acc cut, compute_admission rows = Ok (acc, cut).
Proof.
  intros Hknown. unfold compute_admission.
  destruct rows as [|r0 rows0]; [eauto|]. set (rows := r0 :: rows0) in *.
  destruct (collect (consenting rows)) as [apps scores] eqn:Hcollect.
  assert (Happs : apps = (collect (consenting rows)).1) by by rewrite Hcollect.
  assert (Hscores : scores = scores_of rows) by (unfold scores_of; by rewrite Hcollect).
  destruct (allocate_total (preference_list <$> apps) (processing_order scores)
              init_accepted dom_init_accepted) as [acc Halloc].
  { intros a p _. rewrite Happs, preference_lookup.
    intros (r & Hr & Hc & _ & <-)%elem_of_prefs_of. by apply Hknown. }
  rewrite Halloc. cbn [rbind].
  destruct (cutoffs_total acc scores PROGRAMS ∅) as [cut Hcut].
  { intros p Hp. apply cutoff_of_total; [|done].
    eapply (allocate_inv _ _ []); [|apply alloc_inv_init|done].
    apply processing_order_NoDup. }
  rewrite Hcut. cbn [rbind]. eauto.
Qed.

End AllocFacts.

(** ** The allocation engine: main results *)

Module Allocation.
Import Alloc Ref Samples AllocFacts.

Lemma total_score_row rows a :
  a ∈ processing_order (scores_of rows) →
  ∃ r, r ∈ rows ∧ r_consent r = 1 ∧ r_id r = a ∧ r_total r = total_score rows a.
Proof.
  intros Ha. apply processing_order_elem_of, elem_of_dom in Ha as [s Hs].
  unfold total_score, score_of. rewrite (lookup_total_correct _ _ _ Hs).
  apply collect_scores_lookup in Hs as (r & Hr & Hid & Htot).
  apply elem_of_consenting in Hr as [Hr Hc]. by exists r.
Qed.

(** When the rows of an applicant agree on the total, as the rows joined from
    the store do, that total is the applicant's score. *)
Lemma total_score_consistent rows r :
  (∀ r1 r2, r1 ∈ rows → r2 ∈ rows → r_id r1 = r_id r2 → r_total r1 = r_total r2) →
  r ∈ rows → r_consent r = 1 → total_score rows (r_id r) = r_total r.
Proof.
  intros Hagree Hr Hc.
  destruct (total_score_row rows (r_id r)) as (r' & Hr' & _ & Hid & <-).
  - apply processing_order_elem_of, collect_scores_dom.
    exists r. by rewrite elem_of_consenting.
  - by apply Hagree.
Qed.

(** A check by computation that the rows name configured programs only. *)
Lemma configured_check rows :
  forallb (fun r => bool_decide (r_program r ∈ PROGRAMS)) rows = true →
  ∀ r, r ∈ rows → r_consent r = 1 → r_program r ∈ PROGRAMS.
Proof.
  rewrite forallb_forall. intros Hall r Hr _.
  apply list_elem_of_In, Hall in Hr. by apply bool_decide_eq_true in Hr.
Qed.

(** C1. Applicants are processed by descending total score, ties by
    ascending id; each one, in that order, is appended to the list of the
    first program of their ascending-priority preference list that has fewer
    assigned applicants than seats, or to none if there is no such program;
    nobody is assigned twice.  A result is returned whenever every consenting
    row names a configured program. *)
Theorem greedy_by_score rows :
  ((∀ r, r ∈ rows → r_consent r = 1 → r_program r ∈ PROGRAMS) →
   ∃ acc cut, compute_admission rows = Ok (acc, cut)) ∧
  ∀ acc cut, compute_admission rows = Ok (acc, cut) →
    let order := processing_order (scores_of rows) in
    (∀ a, a ∈ order ↔ ∃ r, r ∈ rows ∧ r_consent r = 1 ∧ r_id r = a) ∧
    (∀ a, a ∈ order →
          ∃ r, r ∈ rows ∧ r_consent r = 1 ∧ r_id r = a ∧
               r_total r = total_score rows a) ∧
    StronglySorted
      (fun a b => total_score rows a > total_score rows b ∨
                  (total_score rows a = total_score rows b ∧ a < b)) order ∧
    (∀ a, ∃ ranked : list (Z * string),
          prefs_of rows a = ranked.*2 ∧
          ranked ≡ₚ apps_of (consenting rows) a ∧
          StronglySorted (fun x y => x.1 ≤ y.1) ranked) ∧
    acc = foldl (fun acc a => assign_first acc a (prefs_of rows a))
                init_accepted order ∧
    (∀ pre a post, order = pre ++ a :: post →
       match first_free
               (foldl (fun acc a => assign_first acc a (prefs_of rows a))
                      init_accepted pre)
               (prefs_of rows a) with
       | Some p => ∃ l, acc !! p = Some l ∧ a ∈ l
       | None => ∀ p l, acc !! p = Some l → a ∉ l
       end) ∧
    (∀ a p1 p2 l1 l2,
        acc !! p1 = Some l1 → acc !! p2 = Some l2 → a ∈ l1 → a ∈ l2 → p1 = p2) ∧
    (∀ p l, acc !! p = Some l → NoDup l ∧ l ⊆ order).
Proof.
  split; [apply compute_admission_total|].
  intros acc cut (Hgreedy & (Hdom & Hsub & Hexcl & Hcap) & _)%compute_admission_inv.
  split_and!.
  - intros a. rewrite processing_order_elem_of. unfold scores_of.
    rewrite collect_scores_dom. setoid_rewrite elem_of_consenting. naive_solver.
  - apply total_score_row.
  - apply processing_order_sorted.
  - intros a. exists (by_priority (apps_of (consenting rows) a)).
    split_and!; [done|apply by_priority_perm|apply by_priority_sorted].
  - exact Hgreedy.
  - intros pre a post Horder. rewrite Hgreedy. unfold greedy. rewrite Horder.
    apply (greedy_turn (prefs_of rows)). rewrite <- Horder.
    apply processing_order_NoDup.
  - intros a p1 p2 l1 l2. apply Hexcl.
  - intros p l Hl. split.
    + apply (sublist_NoDup _ _ (processing_order_NoDup _) (Hsub _ _ Hl)).
    + by eapply sublist_subseteq, Hsub.
Qed.

Lemma greedy_by_score_witness :
  ∃ acc cut, compute_admission two_applicants = Ok (acc, cut) ∧
             acc !! "PM" = Some [2; 1] ∧
             acc = greedy two_applicants.
Proof.
  destruct (greedy_by_score two_applicants) as [Htotal Hgreedy].
  destruct Htotal as (acc & cut & Hrun).
  { apply configured_check. by vm_compute. }
  exists acc, cut. split; [done|].
  destruct (Hgreedy acc cut Hrun) as (_ & _ & _ & _ & -> & _). clear. by vm_compute.
Defined.

(** C3. A program whose list is as long as its capacity has as cutoff the
    total of the applicant assigned last, which is the least total on the
    list; a program with fewer assigned applicants than seats has no
    cutoff. *)
Theorem cutoff_consistency rows acc cut p l :
  compute_admission rows = Ok (acc, cut) → acc !! p = Some l →
  ∃ cap, SEATS !! p = Some cap ∧
    (Z.of_nat (length l) = cap →
       ∃ a, last l = Some a ∧
            cut !! p = Some (Some (total_score rows a)) ∧
            ∀ b, b ∈ l → total_score rows a ≤ total_score rows b) ∧
    (Z.of_nat (length l) < cap → cut !! p = Some None) ∧
    (∀ b, b ∈ l → ∃ r, r ∈ rows ∧ r_consent r = 1 ∧ r_id r = b ∧
                       r_total r = total_score rows b).
Proof.
  intros (_ & (Hdom & Hsub & _ & _) & Hcut)%compute_admission_inv Hl.
  assert (is_Some (SEATS !! p)) as [cap Hcap].
  { apply elem_of_dom. rewrite <- Hdom. apply elem_of_dom. eauto. }
  assert (Hp : p ∈ PROGRAMS) by (apply SEATS_known; eauto).
  destruct (cutoffs_lookup _ _ _ _ _ p Hcut) as [Hin _].
  destruct (Hin Hp) as (c & Hc & Hcutp). clear Hin.
  unfold cutoff_of, subscript in Hc. rewrite Hl, Hcap in Hc. cbn [rbind] in Hc.
  specialize (Hsub _ _ Hl).
  exists cap. split_and!; [done| | |].
  - intros Hfull. destruct (Z.ltb_spec (Z.of_nat (length l)) cap) as [?|_]; [lia|].
    destruct (last l) as [a|] eqn:Hlast; [|done].
    exists a. split; [done|].
    assert (Ha : a ∈ processing_order (scores_of rows)).
    { eapply sublist_subseteq; [done|]. apply last_Some in Hlast as [l' ->]. set_solver. }
    apply processing_order_elem_of, elem_of_dom in Ha as [s Hs].
    rewrite Hs in Hc. cbn [rbind] in Hc. injection Hc as <-.
    assert (Hsa : total_score rows a = s)
      by apply (lookup_total_correct _ _ _ Hs).
    rewrite Hsa. split; [done|]. intros b Hb.
    pose proof (PyFacts.StronglySorted_sublist _ _ _ Hsub
                  (processing_order_sorted (scores_of rows))) as Hsorted.
    destruct (PyFacts.StronglySorted_last _ _ _ _ Hsorted Hlast Hb) as [->|Hprec].
    + by rewrite Hsa.
    + unfold precedes in Hprec.
      fold (total_score rows a) (total_score rows b) in Hprec. lia.
  - intros Hlt. destruct (Z.ltb_spec (Z.of_nat (length l)) cap) as [_|?]; [|lia].
    by injection Hc as <-.
  - intros b Hb. apply total_score_row. by eapply sublist_subseteq.
Qed.

Lemma cutoff_consistency_witness :
  ∃ cap, SEATS !! "IB" = Some cap ∧
    (Z.of_nat (length (seqZ 1 20)) = cap →
       ∃ a, last (seqZ 1 20) = Some a ∧
            crowd_cut !! "IB" = Some (Some (total_score (crowd 21) a)) ∧
            ∀ b, b ∈ seqZ 1 20 → total_score (crowd 21) a ≤ total_score (crowd 21) b) ∧
    (Z.of_nat (length (seqZ 1 20)) < cap → crowd_cut !! "IB" = Some None) ∧
    (∀ b, b ∈ seqZ 1 20 →
          ∃ r, r ∈ crowd 21 ∧ r_consent r = 1 ∧ r_id r = b ∧
               r_total r = total_score (crowd 21) b).
Proof.
  apply (cutoff_consistency (crowd 21) crowd_accepted crowd_cut "IB" (seqZ 1 20));
    by vm_compute.
Defined.



(** C10. [compute_admission] returns a result whenever every consenting row
    names one of PM, IVT, ITSS, IB; on some input with a consenting row
    outside that set the lookup of the program raises [KeyError]. *)
Theorem total_on_configured_programs :
  (∀ rows, (∀ r, r ∈ rows → r_consent r = 1 → r_program r ∈ PROGRAMS) →
           ∃ acc cut, compute_admission rows = Ok (acc, cut)) ∧
  (∃ rows, (∃ r, r ∈ rows ∧ r_consent r = 1 ∧ r_program r ∉ PROGRAMS) ∧
           compute_admission rows = Raise KeyError).
Proof.
  split; [apply compute_admission_total|].
  exists stray_program. split; [|by vm_compute].
  exists (Row 3 "XX" 1 1 10). split_and!; [by left|done|].
  rewrite elem_of_PROGRAMS. simpl. naive_solver.
Qed.

Lemma total_on_configured_programs_witness :
  ∃ acc cut, compute_admission (crowd 21) = Ok (acc, cut).
Proof.
  apply (proj1 total_on_configured_programs).
  apply configured_check. by vm_compute.
Defined.

End Allocation.

(** ** Transactions *)

Module TxFacts.
Import Store.

Import Ref.

Lemma execute_faithful {A} (stmt : db → A * db) : faithful (execute stmt).
Proof.
  intros d n a c. unfold execute. simpl.
  destruct n as [[|n]|]; [done|..]; destruct (stmt d) as [a' d'];
    by intros [= <- <-].
Qed.

Lemma tx_ret_faithful {A} (a : A) : faithful (tx_ret a).
Proof. intros d n a' c. unfold tx_ret. by intros [= <- <-]. Qed.

Lemma tx_bind_faithful {A B} (m : Tx A) (k : A → Tx B) :
  faithful m → (∀ a, faithful (k a)) → faithful (tx_bind m k).
Proof.
  intros Hm Hk d n b c. unfold tx_bind.
  destruct (m (d, n)) as [[a [d1 n1]]|] eqn:Hrun; [|done].
  apply Hm in Hrun as ->. apply Hk.
Qed.

Lemma tx_for_faithful {A} (l : list A) (body : A → Tx unit) :
  (∀ x, faithful (body x)) → faithful (tx_for l body).
Proof.
  intros Hbody. induction l as [|x l IH]; simpl.
  - apply tx_ret_faithful.
  - apply tx_bind_faithful; [apply Hbody|done].
Qed.

Lemma write_run f d : write f (d, None) = Ok (tt, (f d, None)).
Proof. done. Qed.

Lemma write_inv f d n u c : write f (d, n) = Ok (u, c) → c.1 = f d.
Proof.
  unfold write, execute. simpl. destruct n as [[|n]|]; [done|..]; by intros [= _ <-].
Qed.

Lemma read_run {A} (q : db → A) d : read q (d, None) = Ok (q d, (d, None)).
Proof. done. Qed.

Lemma tx_for_write_run {A} (g : A → db → db) l d :
  tx_for l (fun x => write (g x)) (d, None) =
  Ok (tt, (foldl (fun d x => g x d) d l, None)).
Proof.
  revert d. induction l as [|x l IH]; intros d; simpl; [done|].
  unfold tx_bind. rewrite write_run. apply IH.
Qed.

Lemma reconcile_faithful day program now rows :
  faithful (reconcile day program now rows).
Proof.
  unfold reconcile.
  repeat first
    [ apply tx_bind_faithful; [|intros ?]
    | apply tx_for_faithful; intros ?
    | apply execute_faithful
    | apply tx_ret_faithful
    | case_decide ].
Qed.

Lemma reconcile_run day program now rows d :
  reconcile day program now rows (d, None) =
  Ok (tt, (Ref.reconciled day program now rows d, None)).
Proof.
  unfold reconcile, Ref.reconciled, tx_bind.
  rewrite write_run, tx_for_write_run, read_run.
  case_decide; [unfold tx_ret|rewrite write_run]; apply tx_for_write_run.
Qed.

(** The three outcomes of [upsert_competition_list]. *)
Lemma upsert_committed faults now d day program df u d' :
  upsert_competition_list faults now d day program df = (Ok u, d') →
  ∃ rows, _normalize_df df = Ok rows ∧
          d' = Ref.reconciled day program now rows d.
Proof.
  unfold upsert_competition_list, engine_begin.
  destruct (_normalize_df df) as [rows|]; [|done].
  destruct (tx_bind _ _ _) as [[a c]|] eqn:Hrun; [|done].
  intros [= <- <-]. exists rows. split; [done|].
  unfold tx_bind in Hrun.
  destruct (reconcile _ _ _ _ _) as [[[] [d1 n1]]|] eqn:Hbody; [|done].
  apply reconcile_faithful in Hbody. rewrite reconcile_run in Hbody.
  injection Hbody as ->.
  destruct (write id (d1, n1)) as [[[] c2]|] eqn:Hcommit; [|done].
  apply write_inv in Hcommit. unfold tx_ret in Hrun. by injection Hrun as _ <-.
Qed.

Lemma upsert_undisturbed now d day program df rows :
  _normalize_df df = Ok rows →
  upsert_competition_list None now d day program df =
  (Ok tt, Ref.reconciled day program now rows d).
Proof.
  intros Hrows. unfold upsert_competition_list, engine_begin, tx_bind.
  by rewrite Hrows, reconcile_run, write_run.
Qed.

Lemma upsert_raised faults now d day program df e d' :
  upsert_competition_list faults now d day program df = (Raise e, d') → d' = d.
Proof.
  unfold upsert_competition_list, engine_begin.
  destruct (_normalize_df df) as [rows|]; [|by intros [= _ <-]].
  destruct (tx_bind _ _ _) as [[a c]|]; [done|by intros [= _ <-]].
Qed.

End TxFacts.

(** ** The reconciler *)

Module StoreFacts.
Import Store Ref.

Lemma last_row_snoc rows r i :
  last_row (rows ++ [r]) i = if decide (n_id r = i) then Some r else last_row rows i.
Proof.
  unfold last_row. rewrite filter_app, filter_cons, filter_nil.
  destruct (decide (n_id r = i)); [apply last_snoc|by rewrite app_nil_r].
Qed.

Lemma last_row_is_Some rows i : is_Some (last_row rows i) ↔ i ∈ batch_ids rows.
Proof.
  unfold batch_ids. rewrite elem_of_list_to_set, list_elem_of_fmap.
  unfold last_row. rewrite last_is_Some. split.
  - intros Hne. destruct (filter _ rows) as [|r k] eqn:Hf; [done|].
    assert (Hr : r ∈ filter (fun r => n_id r = i) rows) by (rewrite Hf; by left).
    apply list_elem_of_filter in Hr as [<- Hr]. by exists r.
  - intros (r & -> & Hr) Hf.
    assert (Hin : r ∈ filter (fun r' => n_id r' = n_id r) rows)
      by by apply list_elem_of_filter.
    rewrite Hf in Hin. by apply elem_of_nil in Hin.
Qed.

Lemma last_row_id rows i r : last_row rows i = Some r → n_id r = i ∧ r ∈ rows.
Proof.
  unfold last_row. intros Hlast%last_Some_elem_of.
  by apply list_elem_of_filter in Hlast.
Qed.

(** *** The two upsert loops *)

Lemma upsert_applicants_loads rows d :
  loads (foldl (fun d r => upsert_applicant r d) d rows) = loads d.
Proof. revert d. induction rows as [|r rows IH]; intros d; simpl; [done|]. by rewrite IH. Qed.

Lemma upsert_applicants_applications rows d :
  applications (foldl (fun d r => upsert_applicant r d) d rows) = applications d.
Proof. revert d. induction rows as [|r rows IH]; intros d; simpl; [done|]. by rewrite IH. Qed.

Lemma upsert_applicants_lookup rows d i :
  applicants (foldl (fun d r => upsert_applicant r d) d rows) !! i =
  match last_row rows i with
  | Some r => Some (row_scores r)
  | None => applicants d !! i
  end.
Proof.
  induction rows as [|r rows IH] using rev_ind; [done|].
  rewrite foldl_snoc, last_row_snoc. unfold upsert_applicant at 1. simpl.
  destruct (decide (n_id r = i)) as [<-|Hne].
  - by rewrite lookup_insert_eq.
  - by rewrite lookup_insert_ne.
Qed.

Lemma upsert_applications_loads day program now rows d :
  loads (foldl (fun d r => upsert_application day program now r d) d rows) = loads d.
Proof. revert d. induction rows as [|r rows IH]; intros d; simpl; [done|]. by rewrite IH. Qed.

Lemma upsert_applications_applicants day program now rows d :
  applicants (foldl (fun d r => upsert_application day program now r d) d rows) =
  applicants d.
Proof. revert d. induction rows as [|r rows IH]; intros d; simpl; [done|]. by rewrite IH. Qed.

Lemma upsert_applications_lookup day program now rows d dy pg i :
  applications (foldl (fun d r => upsert_application day program now r d) d rows)
    !! (dy, pg, i) =
  if decide (dy = day ∧ pg = program) then
    match last_row rows i with
    | Some r => Some (row_fact now r)
    | None => applications d !! (dy, pg, i)
    end
  else applications d !! (dy, pg, i).
Proof.
  induction rows as [|r rows IH] using rev_ind; [by case_decide|].
  rewrite foldl_snoc, last_row_snoc. unfold upsert_application at 1. simpl.
  destruct (decide ((day, program, n_id r) = (dy, pg, i))) as [[= <- <- <-]|Hne].
  - rewrite lookup_insert_eq, !decide_True by done. done.
  - rewrite lookup_insert_ne, IH by done.
    case_decide as Hpart; [|done]. destruct Hpart as [-> ->].
    rewrite decide_False; [done|]. by intros <-.
Qed.

(** *** The stored ids of a partition and the delete *)

Lemma elem_of_select_application_ids day program d i :
  i ∈ select_application_ids day program d ↔
  is_Some (applications d !! (day, program, i)).
Proof.
  unfold select_application_ids. rewrite elem_of_map. split.
  - intros ([[dy pg] j] & -> & [f Hf]%elem_of_dom).
    apply map_lookup_filter_Some in Hf as [Hf [Hd Hp]]. simpl in *. subst. eauto.
  - intros [f Hf]. exists (day, program, i). split; [done|].
    apply elem_of_dom. exists f. by apply map_lookup_filter_Some.
Qed.

Lemma delete_applications_lookup day program ids d dy pg i :
  applications (delete_applications day program ids d) !! (dy, pg, i) =
  if decide ((dy = day ∧ pg = program) ∧ i ∈ ids) then None
  else applications d !! (dy, pg, i).
Proof.
  unfold delete_applications. simpl. case_decide as Hdel.
  - apply map_lookup_filter_None. right. intros f _ Hkeep. by apply Hkeep.
  - destruct (applications d !! (dy, pg, i)) as [f|] eqn:Hf.
    + by apply map_lookup_filter_Some.
    + apply map_lookup_filter_None. by left.
Qed.

(** *** The store after a committed reconciliation *)

Lemma reconciled_loads day program now rows d :
  loads (reconciled day program now rows d) = loads d ++ [Load day program now].
Proof.
  unfold reconciled. rewrite upsert_applications_loads.
  case_decide; simpl; by rewrite upsert_applicants_loads.
Qed.

Lemma reconciled_applicants_lookup day program now rows d i :
  applicants (reconciled day program now rows d) !! i =
  match last_row rows i with
  | Some r => Some (row_scores r)
  | None => applicants d !! i
  end.
Proof.
  unfold reconciled. rewrite upsert_applications_applicants.
  case_decide; simpl; by rewrite upsert_applicants_lookup.
Qed.

Lemma reconciled_applications_lookup day program now rows d dy pg i :
  applications (reconciled day program now rows d) !! (dy, pg, i) =
  if decide (dy = day ∧ pg = program) then row_fact now <$> last_row rows i
  else applications d !! (dy, pg, i).
Proof.
  unfold reconciled. rewrite upsert_applications_lookup.
  case_decide as Hpart.
  - destruct (last_row rows i) as [r|] eqn:Hlast; [done|]. simpl.
    destruct Hpart as [-> ->].
    assert (Hnew : i ∉ batch_ids rows).
    { rewrite <- last_row_is_Some, Hlast. by intros [? ?]. }
    set (d2 := foldl _ (insert_load day program now d) rows).
    assert (Hold : i ∈ select_application_ids day program d2 ↔
                   is_Some (applications d2 !! (day, program, i)))
      by apply elem_of_select_application_ids.
    case_decide as Hnone.
    + apply eq_None_not_Some. rewrite <- Hold. intros Hi.
      assert (i ∈ select_application_ids day program d2 ∖
                  (list_to_set (n_id <$> rows) : gset Z)) as Hin
        by (apply elem_of_difference; split; done).
      rewrite Hnone in Hin. by apply elem_of_empty in Hin.
    + rewrite delete_applications_lookup. case_decide as Hdel; [done|].
      apply eq_None_not_Some. rewrite <- Hold. intros Hi. apply Hdel.
      split; [done|]. by apply elem_of_difference.
  - case_decide.
    + by rewrite upsert_applicants_applications.
    + rewrite delete_applications_lookup, decide_False by tauto.
      by rewrite upsert_applicants_applications.
Qed.

(** *** Validation *)

Lemma astype_int_fmap {A} (f : A → Z) (l : list A) :
  astype_int ((fun x => IntLike (f x)) <$> l) = Ok (f <$> l).
Proof.
  induction l as [|x l IH]; [done|].
  rewrite !fmap_cons. cbn [astype_int int_of_cell rbind]. by rewrite IH.
Qed.

Lemma zip_rows_fmap rows :
  zip_rows (n_id <$> rows) (n_consent <$> rows) (n_priority <$> rows)
           (n_phys <$> rows) (n_rus <$> rows) (n_math <$> rows)
           (n_indiv <$> rows) (n_total <$> rows) = rows.
Proof.
  induction rows as [|[] rows IH]; [done|].
  rewrite !fmap_cons. cbn [zip_rows]. by rewrite IH.
Qed.

Lemma filter_nil_iff {A} (P : A → Prop) `{∀ x, Decision (P x)} (l : list A) :
  filter P l = [] ↔ ∀ x, x ∈ l → ¬ P x.
Proof.
  induction l as [|x l IH].
  - split; [|done]. by intros _ x ?%elem_of_nil.
  - rewrite filter_cons. destruct (decide (P x)) as [HP|HP].
    + split; [done|]. intros Hall. destruct (Hall x); [by left|done].
    + rewrite IH. split.
      * intros Hall y [ -> |Hy]%elem_of_cons; [done|by apply Hall].
      * intros Hall y Hy. apply Hall. by right.
Qed.

Lemma elem_of_required c :
  c ∈ required ↔
  c = "id" ∨ c = "consent" ∨ c = "priority" ∨ c = "phys" ∨ c = "rus" ∨
  c = "math" ∨ c = "indiv" ∨ c = "total".
Proof. unfold required. rewrite !elem_of_cons, elem_of_nil. tauto. Qed.

Lemma column_lookup df c col : df !! c = Some col → column df c = col.
Proof. unfold column. by intros ->. Qed.

Lemma frame_columns rows :
  Samples.frame rows !! "id" = Some ((fun r => IntLike (n_id r)) <$> rows) ∧
  Samples.frame rows !! "consent" = Some ((fun r => IntLike (n_consent r)) <$> rows) ∧
  Samples.frame rows !! "priority" = Some ((fun r => IntLike (n_priority r)) <$> rows) ∧
  Samples.frame rows !! "phys" = Some ((fun r => IntLike (n_phys r)) <$> rows) ∧
  Samples.frame rows !! "rus" = Some ((fun r => IntLike (n_rus r)) <$> rows) ∧
  Samples.frame rows !! "math" = Some ((fun r => IntLike (n_math r)) <$> rows) ∧
  Samples.frame rows !! "indiv" = Some ((fun r => IntLike (n_indiv r)) <$> rows) ∧
  Samples.frame rows !! "total" = Some ((fun r => IntLike (n_total r)) <$> rows).
Proof.
  unfold Samples.frame. rewrite !list_to_map_cons, list_to_map_nil.
  split_and!; repeat (rewrite lookup_insert_ne by done); apply lookup_insert_eq.
Qed.

Lemma normalize_frame rows : _normalize_df (Samples.frame rows) = Ok rows.
Proof.
  destruct (frame_columns rows) as (Hid & Hc & Hpr & Hph & Hru & Hma & Hin & Hto).
  unfold _normalize_df.
  assert (filter (fun c => c ∉ dom (Samples.frame rows)) required = []) as ->.
  { apply filter_nil_iff. intros c Hc' Hmiss. apply Hmiss, elem_of_dom.
    apply elem_of_required in Hc'.
    destruct Hc' as [ -> |[ -> |[ -> |[ -> |[ -> |[ -> |[ -> | -> ]]]]]]]; eauto. }
  rewrite (column_lookup _ _ _ Hid), (column_lookup _ _ _ Hc),
    (column_lookup _ _ _ Hpr), (column_lookup _ _ _ Hph),
    (column_lookup _ _ _ Hru), (column_lookup _ _ _ Hma),
    (column_lookup _ _ _ Hin), (column_lookup _ _ _ Hto).
  rewrite !astype_int_fmap. cbn [rbind]. by rewrite zip_rows_fmap.
Qed.

Lemma normalize_missing_column df c :
  c ∈ required → c ∉ dom df → _normalize_df df = Raise ValueError.
Proof.
  intros Hreq Hmiss. unfold _normalize_df.
  destruct (filter _ required) as [|c' l] eqn:Hf; [|done].
  assert (Hin : c ∈ filter (fun c => c ∉ dom df) required)
    by by apply list_elem_of_filter.
  rewrite Hf in Hin. by apply elem_of_nil in Hin.
Qed.

Lemma rbind_raises {A B} (m : result A) (k : A → result B) e :
  rbind m k = Raise e → m = Raise e ∨ ∃ a, m = Ok a ∧ k a = Raise e.
Proof. destruct m as [a|e']; simpl; [eauto|]. intros [= <-]. by left. Qed.

Lemma astype_int_raises col e :
  astype_int col = Raise e →
  ∃ c, c ∈ col ∧ int_of_cell c = Raise e.
Proof.
  induction col as [|c col IH]; cbn [astype_int]; [done|].
  intros [Hc|(z & _ & Hrest)]%rbind_raises.
  - exists c. split; [by left|done].
  - apply rbind_raises in Hrest as [Hrest|(zs & _ & ?)]; [|done].
    destruct (IH Hrest) as (c' & Hin & Hc'). exists c'. split; [by right|done].
Qed.

(** The exceptions of validation. *)
Lemma normalize_raises df e :
  _normalize_df df = Raise e →
  e = ValueError ∨ e = TypeError ∨ e = OverflowError.
Proof.
  unfold _normalize_df. destruct (filter _ required); [|intros [= <-]; by left].
  intros Hrun.
  assert (Hcol : ∀ col, astype_int col = Raise e →
                        e = ValueError ∨ e = TypeError ∨ e = OverflowError).
  { intros col (c & _ & Hc)%astype_int_raises.
    destruct c; simpl in Hc; [done|..]; injection Hc as <-; tauto. }
  repeat (apply rbind_raises in Hrun as [Hrun|(? & _ & Hrun)];
          [by eapply Hcol|]).
  done.
Qed.

End StoreFacts.

(** ** The reconciler: main results *)

Module Reconciliation.
Import Alloc Store Ref Samples TxFacts StoreFacts.

(** C2. After a committed reconciliation the ids stored for (day, program)
    are exactly the ids of the batch, whatever was stored before: ids of the
    batch are present, all others are gone; no application row of another
    (day, program) changes. *)
Theorem snapshot_totality faults now d day program df u d' :
  upsert_competition_list faults now d day program df = (Ok u, d') →
  ∃ rows, _normalize_df df = Ok rows ∧
    select_application_ids day program d' = batch_ids rows ∧
    (∀ i, i ∈ batch_ids rows → is_Some (applications d' !! (day, program, i))) ∧
    (∀ i, i ∉ batch_ids rows → applications d' !! (day, program, i) = None) ∧
    (∀ dy pg i, ¬ (dy = day ∧ pg = program) →
                applications d' !! (dy, pg, i) = applications d !! (dy, pg, i)).
Proof.
  intros (rows & Hrows & ->)%upsert_committed. exists rows.
  assert (Hin : ∀ i, is_Some (applications (reconciled day program now rows d)
                                !! (day, program, i)) ↔ i ∈ batch_ids rows).
  { intros i. rewrite reconciled_applications_lookup, decide_True by done.
    by rewrite fmap_is_Some, last_row_is_Some. }
  split_and!; [done| | | |].
  - apply set_eq. intros i. by rewrite elem_of_select_application_ids.
  - intros i. apply Hin.
  - intros i Hi. apply eq_None_not_Some. by rewrite Hin.
  - intros dy pg i Hother.
    by rewrite reconciled_applications_lookup, decide_False.
Qed.

Lemma snapshot_totality_witness :
  ∃ rows, _normalize_df (frame batch_234) = Ok rows ∧
    select_application_ids "D" "PM" (reconciled "D" "PM" "t1" batch_234 store_123)
      = batch_ids rows ∧
    (∀ i, i ∈ batch_ids rows →
          is_Some (applications (reconciled "D" "PM" "t1" batch_234 store_123)
                     !! ("D", "PM", i))) ∧
    (∀ i, i ∉ batch_ids rows →
          applications (reconciled "D" "PM" "t1" batch_234 store_123)
            !! ("D", "PM", i) = None) ∧
    (∀ dy pg i, ¬ (dy = "D" ∧ pg = "PM") →
          applications (reconciled "D" "PM" "t1" batch_234 store_123) !! (dy, pg, i)
          = applications store_123 !! (dy, pg, i)).
Proof.
  apply (snapshot_totality None "t1" store_123 "D" "PM" (frame batch_234) tt).
  by vm_compute.
Defined.

(** C4. Whenever reconciliation raises, the store is the one it started
    from: no log entry, no score, no application is kept.  This holds of a
    failure of validation, whatever the exception, and of a failure of any
    statement of the transaction or of its commit. *)
Theorem failure_atomicity faults now d day program df e d' :
  upsert_competition_list faults now d day program df = (Raise e, d') →
  d' = d.
Proof.
  unfold upsert_competition_list, engine_begin.
  destruct (_normalize_df df) as [rows|e0]; [|by intros [= _ <-]].
  destruct (tx_bind _ _ _) as [[a c]|e1]; [done|by intros [= _ <-]].
Qed.

Lemma failure_atomicity_witness :
  (upsert_competition_list None "t1" store_123 "D" "PM" frame_no_total).2
    = store_123 ∧
  (upsert_competition_list None "t1" store_123 "D" "PM" (frame_bad_cell NotNumber)).2
    = store_123 ∧
  (upsert_competition_list None "t1" store_123 "D" "PM" (frame_bad_cell NoneCell)).2
    = store_123 ∧
  (upsert_competition_list None "t1" store_123 "D" "PM" (frame_bad_cell TooBig)).2
    = store_123 ∧
  (upsert_competition_list (Some 5%nat) "t1" store_123 "D" "PM" (frame batch_234)).2
    = store_123 ∧
  (upsert_competition_list (Some 9%nat) "t1" store_123 "D" "PM" (frame batch_234)).2
    = store_123.
Proof.
  split_and!.
  - apply (failure_atomicity None "t1" store_123 "D" "PM" frame_no_total ValueError).
    by vm_compute.
  - apply (failure_atomicity None "t1" store_123 "D" "PM" (frame_bad_cell NotNumber)
             ValueError).
    by vm_compute.
  - apply (failure_atomicity None "t1" store_123 "D" "PM" (frame_bad_cell NoneCell)
             TypeError).
    by vm_compute.
  - apply (failure_atomicity None "t1" store_123 "D" "PM" (frame_bad_cell TooBig)
             OverflowError).
    by vm_compute.
  - apply (failure_atomicity (Some 5%nat) "t1" store_123 "D" "PM" (frame batch_234)
             StoreError).
    by vm_compute.
  - apply (failure_atomicity (Some 9%nat) "t1" store_123 "D" "PM" (frame batch_234)
             StoreError).
    by vm_compute.
Defined.

(** C9. Reconciliation removes no applicant: whoever had a score row keeps
    one, and an applicant absent from the batch keeps it unchanged, also when
    the application row was deleted. *)
Theorem applicants_persist faults now d day program df i s :
  applicants d !! i = Some s →
  let d' := (upsert_competition_list faults now d day program df).2 in
  is_Some (applicants d' !! i) ∧
  (∀ rows, _normalize_df df = Ok rows → i ∉ batch_ids rows →
           applicants d' !! i = Some s).
Proof.
  intros Hs.
  destruct (upsert_competition_list faults now d day program df) as [[u|e] d']
    eqn:Hrun; simpl.
  - apply upsert_committed in Hrun as (rows & Hrows & ->).
    rewrite reconciled_applicants_lookup. split.
    + destruct (last_row rows i); eauto.
    + intros rows' Hrows' Hi. assert (rows' = rows) as -> by congruence.
      destruct (last_row rows i) eqn:Hlast; [|done].
      destruct Hi. apply last_row_is_Some. eauto.
  - apply upsert_raised in Hrun as ->. eauto.
Qed.

Lemma applicants_persist_witness :
  applications store_123 !! ("D", "PM", 1) = Some (AppFact 1 1 "t0") ∧
  (let d' := (upsert_competition_list None "t1" store_123 "D" "PM"
                (frame batch_234)).2 in
   applications d' !! ("D", "PM", 1) = None ∧
   is_Some (applicants d' !! 1) ∧
   (∀ rows, _normalize_df (frame batch_234) = Ok rows → 1 ∉ batch_ids rows →
            applicants d' !! 1 = Some (Scores 70 80 90 5 245))).
Proof.
  split; [by vm_compute|]. intros d'. split; [by vm_compute|].
  apply (applicants_persist None "t1" store_123 "D" "PM" (frame batch_234) 1).
  by vm_compute.
Defined.

(** C5, as the spec states it, fails: a second upload of the same batch, even
    at the same reading of the clock, leaves a store that differs from the one
    after the first upload by one more entry in the upload log. *)
Lemma second_upload_changes_store :
  let first := upsert_competition_list None "t0" empty_db "D" "PM" (frame batch_123) in
  let second := upsert_competition_list None "t0" first.2 "D" "PM" (frame batch_123) in
  first.1 = Ok tt ∧ second.1 = Ok tt ∧ second.2 ≠ first.2.
Proof.
  split_and!; [by vm_compute..|].
  intros Heq. apply (f_equal (fun d => length (loads d))) in Heq.
  by vm_compute in Heq.
Qed.

(** C5, amended. Uploading the same batch for the same (day, program) twice
    in a row leaves the applicants table as after the first upload and the
    same application rows with the same consent and priority; the upload log
    has one more entry and the rows of the partition carry the time of the
    second upload, so the application table is identical when the clock
    reads the same. *)
Theorem reupload_idempotent_up_to_log
    faults1 faults2 now1 now2 d day program df u1 u2 d1 d2 :
  upsert_competition_list faults1 now1 d day program df = (Ok u1, d1) →
  upsert_competition_list faults2 now2 d1 day program df = (Ok u2, d2) →
  applicants d2 = applicants d1 ∧
  loads d2 = loads d1 ++ [Load day program now2] ∧
  (∀ dy pg i,
     applications d2 !! (dy, pg, i) =
     if decide (dy = day ∧ pg = program)
     then restamp now2 <$> applications d1 !! (dy, pg, i)
     else applications d1 !! (dy, pg, i)) ∧
  (now2 = now1 → applications d2 = applications d1).
Proof.
  intros (rows & Hrows & ->)%upsert_committed (rows' & Hrows' & ->)%upsert_committed.
  assert (rows' = rows) as -> by congruence. clear Hrows'.
  assert (Happs : ∀ dy pg i,
    applications (reconciled day program now2 rows
                    (reconciled day program now1 rows d)) !! (dy, pg, i) =
    if decide (dy = day ∧ pg = program)
    then restamp now2 <$>
           applications (reconciled day program now1 rows d) !! (dy, pg, i)
    else applications (reconciled day program now1 rows d) !! (dy, pg, i)).
  { intros dy pg i. rewrite !reconciled_applications_lookup.
    case_decide; [|done]. by destruct (last_row rows i). }
  split_and!; [|apply reconciled_loads|done|].
  - apply map_eq. intros i. rewrite !reconciled_applicants_lookup.
    by destruct (last_row rows i).
  - intros ->. apply map_eq. intros [[dy pg] i]. rewrite Happs.
    case_decide; [|done]. rewrite reconciled_applications_lookup, decide_True by done.
    by destruct (last_row rows i).
Qed.

Lemma reupload_idempotent_up_to_log_witness :
  let d1 := store_123 in
  let d2 := reconciled "D" "PM" "t1" batch_123 store_123 in
  applicants d2 = applicants d1 ∧
  loads d2 = loads d1 ++ [Load "D" "PM" "t1"] ∧
  (∀ dy pg i,
     applications d2 !! (dy, pg, i) =
     if decide (dy = "D" ∧ pg = "PM")
     then restamp "t1" <$> applications d1 !! (dy, pg, i)
     else applications d1 !! (dy, pg, i)) ∧
  ("t1" = "t0" → applications d2 = applications d1).
Proof.
  apply (reupload_idempotent_up_to_log None None "t0" "t1" empty_db "D" "PM"
           (frame batch_123) tt tt); by vm_compute.
Defined.

End Reconciliation.

(** ** The read queries *)

Module Queries.
Import Alloc Store Ref Samples AllocFacts TxFacts StoreFacts.

Lemma elem_of_select_day_rows d day r :
  r ∈ select_day_rows d day ↔
  ∃ f s, applications d !! (day, r_program r, r_id r) = Some f ∧
         applicants d !! r_id r = Some s ∧
         r = Row (r_id r) (r_program r) (a_priority f) (a_consent f) (s_total s).
Proof.
  unfold select_day_rows. rewrite list_elem_of_omap. split.
  - intros ([[[dy pg] i] f] & Hkv%elem_of_map_to_list & Hrow).
    unfold joined_row in Hrow. simpl in Hrow.
    case_decide as Hday; [subst dy|done].
    destruct (applicants d !! i) as [s|] eqn:Hs; [|done].
    injection Hrow as <-. simpl. by exists f, s.
  - intros (f & s & Hf & Hs & Hr).
    exists (day, r_program r, r_id r, f). split; [by apply elem_of_map_to_list|].
    unfold joined_row. simpl. rewrite decide_True, Hs by done. simpl. by rewrite Hr.
Qed.

Lemma elem_of_query_program_list d program day consent sort r :
  r ∈ query_program_list d program day consent sort ↔
  ∃ dy f s, applications d !! (dy, program, n_id r) = Some f ∧
            applicants d !! n_id r = Some s ∧
            day_selected day dy = true ∧
            consent_selected consent (a_consent f) = true ∧
            r = NRow (n_id r) (a_consent f) (a_priority f)
                     (s_phys s) (s_rus s) (s_math s) (s_indiv s) (s_total s).
Proof.
  unfold query_program_list. rewrite PyFacts.sorted_elem_of, list_elem_of_omap. split.
  - intros ([[[dy pg] i] f] & Hkv%elem_of_map_to_list & Hrow).
    unfold program_row in Hrow. simpl in Hrow.
    case_decide as Hpg; [subst pg|done].
    destruct (day_selected day dy && consent_selected consent (a_consent f))
      eqn:Hsel; [|done].
    apply andb_true_iff in Hsel as [Hday Hconsent].
    destruct (applicants d !! i) as [s|] eqn:Hs; [|done].
    injection Hrow as <-. simpl. by exists dy, f, s.
  - intros (dy & f & s & Hf & Hs & Hday & Hconsent & Hr).
    exists (dy, program, n_id r, f). split; [by apply elem_of_map_to_list|].
    unfold program_row. simpl.
    rewrite decide_True, Hday, Hconsent, Hs by done. simpl. by rewrite Hr.
Qed.

Lemma consenting_none rows :
  (∀ r, r ∈ rows → r_consent r ≠ 1) → consenting rows = [].
Proof.
  intros Hnone. unfold consenting.
  induction rows as [|r rows IH]; [done|].
  rewrite filter_cons, decide_False by (apply Hnone; by left).
  apply IH. intros r' Hr'. apply Hnone. by right.
Qed.

Lemma compute_admission_none rows :
  (∀ r, r ∈ rows → r_consent r ≠ 1) →
  compute_admission rows = Ok (init_accepted, init_cut).
Proof.
  intros Hnone. unfold compute_admission.
  destruct rows as [|r rows]; [done|].
  rewrite (consenting_none _ Hnone). by vm_compute.
Qed.

(** C6, as the spec states it, fails: the result for a day without stored
    applications is the result for a day whose only application carries no
    consent, where every program is undersubscribed. *)
Lemma no_data_not_distinguished :
  (∀ pg i, applications empty_db !! ("D", pg, i) = None) ∧
  applications store_refusal !! ("D", "PM", 7) = Some (AppFact 0 1 "t0") ∧
  compute_admission_from_db empty_db "D" = compute_admission_from_db store_refusal "D".
Proof. split_and!; [done|by vm_compute..]. Qed.

(** C6, amended. For a day with no stored applications the engine returns,
    for every configured program, an empty list and no cutoff; it returns the
    same for every day none of whose stored applications carries consent. *)
Theorem no_data_result d day :
  (∀ pg i f, applications d !! (day, pg, i) = Some f → a_consent f ≠ 1) →
  compute_admission_from_db d day = Ok (init_accepted, init_cut) ∧
  ∀ p, p ∈ PROGRAMS → init_accepted !! p = Some [] ∧ init_cut !! p = Some None.
Proof.
  intros Hnone. split.
  - apply compute_admission_none.
    intros r (f & s & Hf & _ & ->)%elem_of_select_day_rows. simpl. by eapply Hnone.
  - intros p Hp. by rewrite init_accepted_lookup, init_cut_lookup.
Qed.

Lemma no_data_result_witness :
  (compute_admission_from_db empty_db "D" = Ok (init_accepted, init_cut) ∧
   ∀ p, p ∈ PROGRAMS → init_accepted !! p = Some [] ∧ init_cut !! p = Some None) ∧
  (∀ pg i f, applications empty_db !! ("D", pg, i) = Some f → a_consent f ≠ 1).
Proof.
  assert (Hnone : ∀ pg i f,
            applications empty_db !! ("D", pg, i) = Some f → a_consent f ≠ 1)
    by (intros pg i f; simpl; by rewrite lookup_empty).
  split; [|done]. apply (no_data_result empty_db "D" Hnone).
Defined.

(** C7, as the spec states it, fails: an upload under a program code that is
    not configured commits, and the list query for that code returns the
    rows. *)
Lemma unknown_program_not_rejected :
  ("XX" ∉ PROGRAMS) ∧
  (let up := upsert_competition_list None "t0" empty_db "D" "XX" (frame batch_123) in
   up.1 = Ok tt ∧
   select_application_ids "D" "XX" up.2 = batch_ids batch_123 ∧
   query_program_list up.2 "XX" (Some "D") None "id_asc" = batch_123).
Proof.
  split; [rewrite elem_of_PROGRAMS; naive_solver|].
  split_and!; by vm_compute.
Qed.

(** C7, amended. A program code outside the configured map is not checked:
    an upload of a well-formed batch under it commits and stores the ids of
    the batch under that code, and the list query for it returns the rows
    stored under that code joined with their scores; no error is raised. *)
Theorem unknown_program_stored program now d day df rows :
  program ∉ PROGRAMS → _normalize_df df = Ok rows →
  ∃ d', upsert_competition_list None now d day program df = (Ok tt, d') ∧
        select_application_ids day program d' = batch_ids rows ∧
        ∀ dayf consent sort r,
          r ∈ query_program_list d' program dayf consent sort ↔
          ∃ dy f s, applications d' !! (dy, program, n_id r) = Some f ∧
                    applicants d' !! n_id r = Some s ∧
                    day_selected dayf dy = true ∧
                    consent_selected consent (a_consent f) = true ∧
                    r = NRow (n_id r) (a_consent f) (a_priority f)
                             (s_phys s) (s_rus s) (s_math s) (s_indiv s)
                             (s_total s).
Proof.
  intros _ Hrows. exists (reconciled day program now rows d).
  pose proof (upsert_undisturbed now d day program df rows Hrows) as Hrun.
  split_and!; [done| |].
  - apply set_eq. intros i.
    rewrite elem_of_select_application_ids, reconciled_applications_lookup,
      decide_True by done.
    by rewrite fmap_is_Some, last_row_is_Some.
  - intros dayf consent sort r. apply elem_of_query_program_list.
Qed.

Lemma unknown_program_stored_witness :
  ∃ d', upsert_competition_list None "t0" empty_db "D" "XX" (frame batch_123)
          = (Ok tt, d') ∧
        select_application_ids "D" "XX" d' = batch_ids batch_123 ∧
        ∀ dayf consent sort r,
          r ∈ query_program_list d' "XX" dayf consent sort ↔
          ∃ dy f s, applications d' !! (dy, "XX", n_id r) = Some f ∧
                    applicants d' !! n_id r = Some s ∧
                    day_selected dayf dy = true ∧
                    consent_selected consent (a_consent f) = true ∧
                    r = NRow (n_id r) (a_consent f) (a_priority f)
                             (s_phys s) (s_rus s) (s_math s) (s_indiv s)
                             (s_total s).
Proof.
  apply (unknown_program_stored "XX" "t0" empty_db "D" (frame batch_123) batch_123).
  - rewrite elem_of_PROGRAMS. clear. intros [?|[?|[?|?]]]; discriminate.
  - by vm_compute.
Defined.

End Queries.

(** ** The allocation engine: further results *)

Module AllocMore.
Import Alloc Ref Samples AllocFacts.

Lemma allocate_app prefs l1 l2 acc acc' :
  allocate prefs acc (l1 ++ l2) = Ok acc' ↔
  ∃ mid, allocate prefs acc l1 = Ok mid ∧ allocate prefs mid l2 = Ok acc'.
Proof.
  revert acc. induction l1 as [|a l1 IH]; intros acc; simpl.
  - split; [eauto|]. by intros (mid & [= <-] & ?).
  - destruct (scan acc a (prefs !!! a)) as [acc1|]; simpl; [apply IH|].
    split; [done|]. by intros (mid & ? & _).
Qed.

Lemma scan_raises acc a progs e : scan acc a progs = Raise e → e = KeyError.
Proof.
  induction progs as [|p progs IH]; simpl; [done|]. unfold subscript.
  destruct (acc !! p) as [l|]; simpl; [|by intros [= <-]].
  destruct (SEATS !! p) as [cap|]; simpl; [|by intros [= <-]].
  by destruct (Z.of_nat (length l) <? cap).
Qed.

Lemma allocate_raises prefs order acc e :
  allocate prefs acc order = Raise e → e = KeyError.
Proof.
  revert acc. induction order as [|a order IH]; intros acc; simpl; [done|].
  destruct (scan acc a (prefs !!! a)) as [acc1|e1] eqn:Hscan; simpl; [apply IH|].
  intros [= <-]. by eapply scan_raises.
Qed.

(** Lists only grow at their end. *)
Lemma scan_grows acc a progs acc' p l :
  scan acc a progs = Ok acc' → acc !! p = Some l →
  ∃ l', acc' !! p = Some l' ∧ l `prefix_of` l'.
Proof.
  intros Hscan Hl.
  destruct (scan_shape _ _ _ _ Hscan) as [->|(q & k & cap & _ & Hk & _ & _ & ->)];
    [by exists l|].
  destruct (decide (q = p)) as [->|Hne].
  - rewrite lookup_insert_eq. simplify_eq. eexists. split; [done|]. by apply prefix_app_r.
  - rewrite lookup_insert_ne by done. by exists l.
Qed.

Lemma allocate_grows prefs order acc acc' p l :
  allocate prefs acc order = Ok acc' → acc !! p = Some l →
  ∃ l', acc' !! p = Some l' ∧ l `prefix_of` l'.
Proof.
  revert acc l. induction order as [|a order IH]; intros acc l; simpl.
  - intros [= <-] Hl. by exists l.
  - destruct (scan acc a (prefs !!! a)) as [acc1|] eqn:Hscan; simpl; [|done].
    intros Halloc Hl.
    destruct (scan_grows _ _ _ _ _ _ Hscan Hl) as (l1 & Hl1 & Hpre1).
    destruct (IH _ _ Halloc Hl1) as (l' & Hl' & Hpre).
    exists l'. split; [done|]. by etrans.
Qed.

(** Either the scan stops within the first programs of the list, or the
    program it passes over is configured and full. *)
Lemma scan_stop_or_pass acc a l1 q l2 acc' :
  scan acc a (l1 ++ q :: l2) = Ok acc' →
  (∃ p l, p ∈ l1 ++ [q] ∧ acc' !! p = Some l ∧ a ∈ l) ∨
  (∃ l cap, acc !! q = Some l ∧ SEATS !! q = Some cap ∧ cap ≤ Z.of_nat (length l)).
Proof.
  induction l1 as [|p l1 IH]; simpl; unfold subscript.
  - destruct (acc !! q) as [l|] eqn:Hl; simpl; [|done].
    destruct (SEATS !! q) as [cap|] eqn:Hcap; simpl; [|done].
    destruct (Z.ltb_spec (Z.of_nat (length l)) cap) as [Hlt|Hge].
    + intros [= <-]. left. exists q, (l ++ [a]).
      rewrite lookup_insert_eq. set_solver.
    + intros _. right. by exists l, cap.
  - destruct (acc !! p) as [l|] eqn:Hl; simpl; [|done].
    destruct (SEATS !! p) as [cap|] eqn:Hcap; simpl; [|done].
    destruct (Z.ltb_spec (Z.of_nat (length l)) cap) as [Hlt|Hge].
    + intros [= <-]. left. exists p, (l ++ [a]).
      rewrite lookup_insert_eq. set_solver.
    + intros [(p' & l' & Hp' & ?)|?]%IH; [left|by right].
      exists p', l'. set_solver.
Qed.

(** Whoever is on a list asked for that program. *)
Lemma greedy_asked (pref : Z → list string) order acc p l x :
  (∀ q k y, acc !! q = Some k → y ∈ k → q ∈ pref y) →
  foldl (fun acc a => assign_first acc a (pref a)) acc order !! p = Some l →
  x ∈ l → p ∈ pref x.
Proof.
  revert acc. induction order as [|a order IH]; intros acc Hacc; simpl; [by apply Hacc|].
  apply IH. intros q k y.
  pose proof (assign_first_shape acc a (pref a)) as Hshape.
  destruct (first_free acc (pref a)) as [q0|] eqn:Hfirst.
  - destruct Hshape as (k0 & Hk0 & ->).
    apply first_free_Some in Hfirst as [Hq0 _].
    rewrite lookup_insert_Some. intros [[<- <-]|[_ Hk]] Hy; [|by eapply Hacc].
    apply elem_of_app in Hy as [Hy|Hy]; [by eapply Hacc|].
    by apply list_elem_of_singleton in Hy as ->.
  - rewrite Hshape. apply Hacc.
Qed.

(** The cutoff of a full program is the score of the last admitted. *)
Lemma cutoff_when_full rows acc cut p l cap :
  compute_admission rows = Ok (acc, cut) →
  acc !! p = Some l → SEATS !! p = Some cap → cap ≤ Z.of_nat (length l) →
  ∃ a, last l = Some a ∧ cut !! p = Some (Some (total_score rows a)).
Proof.
  intros (_ & (Hdom & Hsub & _ & _) & Hcut)%compute_admission_inv Hl Hcap Hfull.
  assert (Hp : p ∈ PROGRAMS) by (apply SEATS_known; eauto).
  destruct (cutoffs_lookup _ _ _ _ _ p Hcut) as [Hin _].
  destruct (Hin Hp) as (c & Hc & Hcutp). clear Hin.
  unfold cutoff_of, subscript in Hc. rewrite Hl, Hcap in Hc. cbn [rbind] in Hc.
  destruct (Z.ltb_spec (Z.of_nat (length l)) cap) as [?|_]; [lia|].
  destruct (last l) as [a|] eqn:Hlast; [|done].
  exists a. split; [done|].
  assert (Ha : a ∈ processing_order (scores_of rows)).
  { eapply sublist_subseteq; [by eapply Hsub|].
    apply last_Some in Hlast as [l' ->]. set_solver. }
  apply processing_order_elem_of, elem_of_dom in Ha as [s Hs].
  rewrite Hs in Hc. cbn [rbind] in Hc. injection Hc as <-.
  by rewrite Hcutp, (lookup_total_correct _ _ _ Hs : total_score rows a = s).
Qed.

Lemma cutoff_when_short rows acc cut p l cap :
  compute_admission rows = Ok (acc, cut) →
  acc !! p = Some l → SEATS !! p = Some cap → Z.of_nat (length l) < cap →
  cut !! p = Some None.
Proof.
  intros (_ & _ & Hcut)%compute_admission_inv Hl Hcap Hshort.
  assert (Hp : p ∈ PROGRAMS) by (apply SEATS_known; eauto).
  destruct (cutoffs_lookup _ _ _ _ _ p Hcut) as [Hin _].
  destruct (Hin Hp) as (c & Hc & Hcutp). clear Hin.
  unfold cutoff_of, subscript in Hc. rewrite Hl, Hcap in Hc. cbn [rbind] in Hc.
  destruct (Z.ltb_spec (Z.of_nat (length l)) cap) as [_|?]; [|lia].
  by injection Hc as <-.
Qed.

(** X1. The result has exactly the configured programs as keys, in the
    assignment and in the cutoffs; no list is longer than the capacity of its
    program; a cutoff is present exactly for the programs that are full. *)
Theorem capacity_respected rows acc cut :
  compute_admission rows = Ok (acc, cut) →
  dom acc = list_to_set PROGRAMS ∧
  dom cut = list_to_set PROGRAMS ∧
  ∀ p l, acc !! p = Some l →
    ∃ cap, SEATS !! p = Some cap ∧ Z.of_nat (length l) ≤ cap ∧
           ((∃ c, cut !! p = Some (Some c)) ↔ Z.of_nat (length l) = cap).
Proof.
  intros Hrun.
  pose proof (compute_admission_inv _ _ _ Hrun) as (_ & (Hdom & _ & _ & Hcap) & Hcut).
  assert (Hkeys : dom SEATS = list_to_set PROGRAMS).
  { apply set_eq. intros p. by rewrite elem_of_dom, <- SEATS_known, elem_of_list_to_set. }
  split_and!.
  - by rewrite Hdom.
  - apply set_eq. intros p. rewrite elem_of_dom, elem_of_list_to_set.
    destruct (cutoffs_lookup _ _ _ _ _ p Hcut) as [Hin Hout]. split.
    + intros Hsome. destruct (decide (p ∈ PROGRAMS)) as [|Hn]; [done|].
      rewrite (Hout Hn), lookup_empty in Hsome. by destruct Hsome.
    + intros (c & _ & ->)%Hin. eauto.
  - intros p l Hl.
    assert (is_Some (SEATS !! p)) as [cap Hseats].
    { apply elem_of_dom. rewrite <- Hdom. apply elem_of_dom. eauto. }
    exists cap. split_and!; [done|by eapply Hcap|]. split.
    + intros [c Hc].
      destruct (decide (Z.of_nat (length l) < cap)) as [Hshort|?];
        [|specialize (Hcap _ _ _ Hl Hseats); lia].
      rewrite (cutoff_when_short _ _ _ _ _ _ Hrun Hl Hseats Hshort) in Hc. done.
    + intros Hfull.
      destruct (cutoff_when_full _ _ _ _ _ _ Hrun Hl Hseats) as (a & _ & ->); [lia|eauto].
Qed.

Lemma capacity_respected_witness :
  dom crowd_accepted = list_to_set PROGRAMS ∧
  dom crowd_cut = list_to_set PROGRAMS ∧
  ∀ p l, crowd_accepted !! p = Some l →
    ∃ cap, SEATS !! p = Some cap ∧ Z.of_nat (length l) ≤ cap ∧
           ((∃ c, crowd_cut !! p = Some (Some c)) ↔ Z.of_nat (length l) = cap).
Proof. apply (capacity_respected (crowd 21) crowd_accepted crowd_cut). by vm_compute. Defined.

Lemma on_list_asked rows acc cut p l a :
  compute_admission rows = Ok (acc, cut) → acc !! p = Some l → a ∈ l →
  p ∈ prefs_of rows a.
Proof.
  intros (-> & _ & _)%compute_admission_inv Hl Ha. unfold greedy in Hl.
  eapply (greedy_asked (prefs_of rows)); [|done..].
  intros q k y [_ ->]%init_accepted_lookup Hy. by apply elem_of_nil in Hy.
Qed.

(** X2. Whoever is on the list of a program has a consenting application
    for that program among the input rows. *)
Theorem admitted_where_applied rows acc cut p l a :
  compute_admission rows = Ok (acc, cut) → acc !! p = Some l → a ∈ l →
  ∃ r, r ∈ rows ∧ r_consent r = 1 ∧ r_id r = a ∧ r_program r = p.
Proof.
  intros Hrun Hl Ha. apply elem_of_prefs_of. by eapply on_list_asked.
Qed.

Lemma admitted_where_applied_witness :
  ∃ r, r ∈ crowd 21 ∧ r_consent r = 1 ∧ r_id r = 21 ∧ r_program r = "PM".
Proof.
  apply (admitted_where_applied (crowd 21) crowd_accepted crowd_cut "PM" [21] 21);
    [by vm_compute..|by left].
Defined.

(** X3. An applicant who is on the list of none of the first programs of
    their preference list, up to and including [q], was turned away from [q]
    because it was full: the list of [q] has as many entries as [q] has
    seats, everyone on it comes before the applicant in the processing order,
    and the cutoff of [q] is not below the applicant's total. *)
Theorem rejected_only_when_full rows acc cut a l1 q l2 :
  compute_admission rows = Ok (acc, cut) →
  prefs_of rows a = l1 ++ q :: l2 →
  (∀ p l, p ∈ l1 ++ [q] → acc !! p = Some l → a ∉ l) →
  ∃ l c, acc !! q = Some l ∧
         SEATS !! q = Some (Z.of_nat (length l)) ∧
         (∀ b, b ∈ l → precedes (scores_of rows) b a) ∧
         cut !! q = Some (Some c) ∧ total_score rows a ≤ c.
Proof.
  intros Hrun Hprefs Hout.
  pose proof (compute_admission_unfold _ _ _ Hrun) as [Halloc _].
  pose proof (compute_admission_inv _ _ _ Hrun) as (_ & (_ & _ & _ & Hcap) & _).
  set (prefs := preference_list <$> (collect (consenting rows)).1) in *.
  assert (Ha : a ∈ processing_order (scores_of rows)).
  { assert (q ∈ prefs_of rows a) as (r & Hr & Hc & Hid & _)%elem_of_prefs_of
      by (rewrite Hprefs; set_solver).
    apply processing_order_elem_of, collect_scores_dom.
    exists r. by rewrite elem_of_consenting. }
  pose proof (processing_order_NoDup (scores_of rows)) as Hnd.
  pose proof (processing_order_sorted (scores_of rows)) as Hsorted.
  apply list_elem_of_split in Ha as (pre & post & Horder).
  rewrite Horder in Halloc, Hnd, Hsorted.
  apply allocate_app in Halloc as (before & Hpre & Hrest). simpl in Hrest.
  destruct (scan before a (prefs !!! a)) as [mid|] eqn:Hscan; simpl in Hrest; [|done].
  assert (Hinv : alloc_inv pre before).
  { eapply (allocate_inv _ _ []); [|apply alloc_inv_init|done].
    simpl. by apply NoDup_app in Hnd as [? _]. }
  destruct Hinv as (_ & Hsub & _ & _).
  assert (Hlist : prefs !!! a = l1 ++ q :: l2).
  { unfold prefs. by rewrite preference_lookup. }
  rewrite Hlist in Hscan.
  destruct (scan_stop_or_pass _ _ _ _ _ _ Hscan)
    as [(p & l & Hp & Hl & Hin)|(l & cap & Hl & Hseats & Hfull)].
  - destruct (allocate_grows _ _ _ _ _ _ Hrest Hl) as (l' & Hl' & Hprefix).
    destruct Hprefix as [k ->]. destruct (Hout p _ Hp Hl').
    apply elem_of_app. by left.
  - destruct (scan_grows _ _ _ _ _ _ Hscan Hl) as (k & Hk & Hpk).
    destruct (allocate_grows _ _ _ _ _ _ Hrest Hk) as (l' & Hl' & Hpl).
    assert (Hprefix : l `prefix_of` l') by by etrans.
    specialize (Hcap _ _ _ Hl' Hseats).
    assert (l = l') as <-.
    { apply prefix_length_eq; [done|]. lia. }
    assert (cap = Z.of_nat (length l)) as -> by lia.
    assert (Hbefore : ∀ b, b ∈ l → precedes (scores_of rows) b a).
    { intros b Hb. eapply StronglySorted_app_1_elem_of; [done| |by left].
      eapply sublist_subseteq; [by eapply Hsub|done]. }
    destruct (cutoff_when_full _ _ _ _ _ _ Hrun Hl' Hseats) as (a0 & Hlast & Hcut);
      [lia|].
    exists l, (total_score rows a0). split_and!; [done..|].
    apply last_Some_elem_of, Hbefore in Hlast. unfold precedes in Hlast.
    unfold total_score. lia.
Qed.

Lemma rejected_only_when_full_witness :
  ∃ l c, crowd_accepted !! "IB" = Some l ∧
         SEATS !! "IB" = Some (Z.of_nat (length l)) ∧
         (∀ b, b ∈ l → precedes (scores_of (crowd 21)) b 21) ∧
         crowd_cut !! "IB" = Some (Some c) ∧ total_score (crowd 21) 21 ≤ c.
Proof.
  apply (rejected_only_when_full (crowd 21) crowd_accepted crowd_cut 21 [] "IB" ["PM"]).
  - by vm_compute.
  - by vm_compute.
  - intros p l ->%list_elem_of_singleton Hl. vm_compute in Hl.
    injection Hl as <-. clear. intros Hin.
    repeat (apply elem_of_cons in Hin as [?|Hin]; [done|]).
    by apply elem_of_nil in Hin.
Defined.

Lemma compute_admission_no_consent rows :
  consenting rows = [] → compute_admission rows = Ok (init_accepted, init_cut).
Proof.
  intros Hrows. unfold compute_admission.
  destruct rows; [done|]. rewrite Hrows. by vm_compute.
Qed.

Lemma compute_admission_same_consenting rows1 rows2 :
  consenting rows1 = consenting rows2 →
  compute_admission rows1 = compute_admission rows2.
Proof.
  intros Heq. destruct rows1 as [|r1 rows1], rows2 as [|r2 rows2]; [done| | |].
  - symmetry. apply compute_admission_no_consent. by rewrite <- Heq.
  - apply compute_admission_no_consent. by rewrite Heq.
  - unfold compute_admission. by rewrite Heq.
Qed.

Lemma consenting_idemp rows : consenting (consenting rows) = consenting rows.
Proof.
  unfold consenting. induction rows as [|r rows IH]; [done|].
  rewrite filter_cons. destruct (decide (r_consent r = 1)) as [Hc|Hc]; [|done].
  by rewrite filter_cons, decide_True, IH.
Qed.

(** X4. Only the rows with consent = 1 count: two inputs with the same
    consenting rows, in the same order, give the same outcome; in particular
    removing the other rows beforehand changes nothing. *)
Theorem only_consenting_rows_count rows1 rows2 :
  (consenting rows1 = consenting rows2 →
   compute_admission rows1 = compute_admission rows2) ∧
  compute_admission (consenting rows1) = compute_admission rows1.
Proof.
  split; [apply compute_admission_same_consenting|].
  apply compute_admission_same_consenting, consenting_idemp.
Qed.

Lemma only_consenting_rows_count_witness :
  compute_admission (one_refusal ++ [Row 9 "IB" 1 0 99]) =
  compute_admission (Row 9 "IB" 1 2 99 :: one_refusal).
Proof.
  destruct (only_consenting_rows_count (one_refusal ++ [Row 9 "IB" 1 0 99])
              (Row 9 "IB" 1 2 99 :: one_refusal)) as [Hsame _].
  apply Hsame. by vm_compute.
Defined.

Lemma compute_admission_raises rows e :
  compute_admission rows = Raise e → e = KeyError.
Proof.
  intros Hrun. unfold compute_admission in Hrun. destruct rows as [|r0 rows0]; [done|].
  set (rows := r0 :: rows0) in *.
  destruct (collect (consenting rows)) as [apps scores] eqn:Hcollect.
  destruct (allocate (preference_list <$> apps) init_accepted
              (processing_order scores)) as [acc|e1] eqn:Halloc;
    cbn [rbind] in Hrun.
  - destruct (cutoffs_total acc scores PROGRAMS ∅) as [cut Hcut].
    { intros p Hp. apply cutoff_of_total; [|done].
      eapply (allocate_inv _ _ []); [|apply alloc_inv_init|done].
      apply processing_order_NoDup. }
    rewrite Hcut in Hrun. done.
  - injection Hrun as <-. by eapply allocate_raises.
Qed.

(** X5. The only exception [compute_admission] raises is [KeyError], and it
    raises it only when some consenting row names a program that is not
    configured. *)
Theorem raises_only_on_unknown_program rows e :
  compute_admission rows = Raise e →
  e = KeyError ∧
  ∃ r, r ∈ rows ∧ r_consent r = 1 ∧ r_program r ∉ PROGRAMS.
Proof.
  intros Hrun. split; [by eapply compute_admission_raises|].
  destruct (decide (Exists (fun r => r_consent r = 1 ∧ r_program r ∉ PROGRAMS) rows))
    as [Hex|Hall].
  - apply Exists_exists in Hex as (r & Hr & Hc & Hp). by exists r.
  - destruct (compute_admission_total rows) as (acc & cut & Hok).
    + intros r Hr Hc. destruct (decide (r_program r ∈ PROGRAMS)) as [|Hn]; [done|].
      destruct Hall. apply Exists_exists. by exists r.
    + congruence.
Qed.

Lemma raises_only_on_unknown_program_witness :
  KeyError = KeyError ∧
  ∃ r, r ∈ stray_program ∧ r_consent r = 1 ∧ r_program r ∉ PROGRAMS.
Proof. apply (raises_only_on_unknown_program stray_program KeyError). by vm_compute. Defined.

End AllocMore.

(** ** The reconciler: further results *)

Module ReconcileMore.
Import Alloc Store Ref RefMore Samples TxFacts StoreFacts.

(** X6. Every store reached from the empty one by uploads, committed or
    not, keeps referential integrity: each application row has its applicant
    row.  Under it the join of the allocation query loses no application of
    the day. *)
Theorem referential_integrity_kept :
  referenced empty_db ∧
  (∀ faults now d day program df,
     referenced d →
     referenced (upsert_competition_list faults now d day program df).2) ∧
  (∀ d day pg i f,
     referenced d → applications d !! (day, pg, i) = Some f →
     ∃ r, r ∈ select_day_rows d day ∧ r_id r = i ∧ r_program r = pg ∧
          r_consent r = a_consent f ∧ r_priority r = a_priority f).
Proof.
  split_and!.
  - intros dy pg i f. simpl. by rewrite lookup_empty.
  - intros faults now d day program df Href.
    destruct (upsert_competition_list faults now d day program df) as [[u|e] d']
      eqn:Hrun; simpl.
    + apply upsert_committed in Hrun as (rows & _ & ->).
      intros dy pg i f. rewrite reconciled_applications_lookup,
        reconciled_applicants_lookup.
      case_decide.
      * destruct (last_row rows i); [eauto|done].
      * intros Hf. destruct (last_row rows i); [eauto|by eapply Href].
    + by apply upsert_raised in Hrun as ->.
  - intros d day pg i f Href Hf.
    destruct (Href _ _ _ _ Hf) as [s Hs].
    exists (Row i pg (a_priority f) (a_consent f) (s_total s)).
    split; [|done]. apply Queries.elem_of_select_day_rows. by exists f, s.
Qed.

Lemma referential_integrity_kept_witness :
  referenced store_123 ∧
  ∃ r, r ∈ select_day_rows store_123 "D" ∧ r_id r = 3 ∧ r_program r = "PM" ∧
       r_consent r = 0 ∧ r_priority r = 1.
Proof.
  destruct referential_integrity_kept as (Hempty & Hkeep & Hjoin).
  assert (Href : referenced store_123) by apply Hkeep, Hempty.
  split; [done|].
  apply (Hjoin store_123 "D" "PM" 3 (AppFact 0 1 "t0") Href). by vm_compute.
Defined.

(** X7. Scores are global and the last write wins: after a committed upload
    the score row of every id of the batch is the one of the last batch row
    with that id, other score rows are untouched, and the list of any
    program on any day shows the new scores for the ids of the batch. *)
Theorem scores_last_write_wins faults now d day program df u d' :
  upsert_competition_list faults now d day program df = (Ok u, d') →
  ∃ rows, _normalize_df df = Ok rows ∧
    (∀ i, applicants d' !! i =
          match last_row rows i with
          | Some r => Some (row_scores r)
          | None => applicants d !! i
          end) ∧
    (∀ pg dayf consent sort q r,
       q ∈ query_program_list d' pg dayf consent sort →
       last_row rows (n_id q) = Some r →
       row_scores q = row_scores r).
Proof.
  intros (rows & Hrows & ->)%upsert_committed. exists rows.
  split_and!; [done|apply reconciled_applicants_lookup|].
  intros pg dayf consent sort q r
    (dy & f & s & _ & Hs & _ & _ & Hq)%Queries.elem_of_query_program_list Hlast.
  rewrite reconciled_applicants_lookup, Hlast in Hs. injection Hs as <-.
  by rewrite Hq.
Qed.

Lemma scores_last_write_wins_witness :
  ∃ rows, _normalize_df (frame [NRow 2 1 1 1 2 3 4 10]) = Ok rows ∧
    (∀ i, applicants (reconciled "D" "IB" "t1" [NRow 2 1 1 1 2 3 4 10] store_123) !! i =
          match last_row rows i with
          | Some r => Some (row_scores r)
          | None => applicants store_123 !! i
          end) ∧
    (∀ pg dayf consent sort q r,
       q ∈ query_program_list
             (reconciled "D" "IB" "t1" [NRow 2 1 1 1 2 3 4 10] store_123)
             pg dayf consent sort →
       last_row rows (n_id q) = Some r →
       row_scores q = row_scores r).
Proof.
  apply (scores_last_write_wins None "t1" store_123 "D" "IB"
           (frame [NRow 2 1 1 1 2 3 4 10]) tt).
  by vm_compute.
Defined.

(** X8. After a committed upload the application row of every id of the
    batch carries the consent and priority of the last batch row with that
    id and the time of this upload, and the upload log is the old one with
    one entry for this upload at its end. *)
Theorem upload_post_state faults now d day program df u d' :
  upsert_competition_list faults now d day program df = (Ok u, d') →
  ∃ rows, _normalize_df df = Ok rows ∧
    loads d' = loads d ++ [Load day program now] ∧
    ∀ i, applications d' !! (day, program, i) = row_fact now <$> last_row rows i.
Proof.
  intros (rows & Hrows & ->)%upsert_committed. exists rows.
  split_and!; [done|apply reconciled_loads|].
  intros i. by rewrite reconciled_applications_lookup, decide_True.
Qed.

Lemma upload_post_state_witness :
  ∃ rows, _normalize_df (frame batch_234) = Ok rows ∧
    loads (reconciled "D" "PM" "t1" batch_234 store_123) =
      loads store_123 ++ [Load "D" "PM" "t1"] ∧
    ∀ i, applications (reconciled "D" "PM" "t1" batch_234 store_123)
           !! ("D", "PM", i) = row_fact "t1" <$> last_row rows i.
Proof.
  apply (upload_post_state None "t1" store_123 "D" "PM" (frame batch_234) tt).
  by vm_compute.
Defined.

(** X9. Uploads for two different (day, program) pairs commute on the
    applications table; they commute on the applicants table too when the
    two batches have no id in common, and the upload logs hold the same
    entries. *)
Theorem uploads_commute
    fa fb fa' fb' ta tb d daya pa dfa dayb pb dfb ua ub ua' ub' da dab db dba :
  ¬ (daya = dayb ∧ pa = pb) →
  upsert_competition_list fa ta d daya pa dfa = (Ok ua, da) →
  upsert_competition_list fb tb da dayb pb dfb = (Ok ub, dab) →
  upsert_competition_list fb' tb d dayb pb dfb = (Ok ub', db) →
  upsert_competition_list fa' ta db daya pa dfa = (Ok ua', dba) →
  applications dab = applications dba ∧
  loads dab ≡ₚ loads dba ∧
  ∀ rowsa rowsb,
    _normalize_df dfa = Ok rowsa → _normalize_df dfb = Ok rowsb →
    batch_ids rowsa ## batch_ids rowsb →
    applicants dab = applicants dba.
Proof.
  intros Hdiff (rowsa & Ha & ->)%upsert_committed (rowsb & Hb & ->)%upsert_committed
    (rowsb' & Hb' & ->)%upsert_committed (rowsa' & Ha' & ->)%upsert_committed.
  assert (rowsa' = rowsa) as -> by congruence.
  assert (rowsb' = rowsb) as -> by congruence.
  split_and!.
  - apply map_eq. intros [[dy pg] i]. rewrite !reconciled_applications_lookup.
    repeat case_decide; naive_solver.
  - rewrite !reconciled_loads, <- !app_assoc. apply Permutation_app_head.
    apply Permutation_swap.
  - intros ra rb Hra Hrb Hdisj.
    assert (ra = rowsa) as -> by congruence. assert (rb = rowsb) as -> by congruence.
    apply map_eq. intros i. rewrite !reconciled_applicants_lookup.
    destruct (last_row rowsa i) eqn:Hla, (last_row rowsb i) eqn:Hlb; try done.
    assert (i ∈ batch_ids rowsa) by (apply last_row_is_Some; eauto).
    assert (i ∈ batch_ids rowsb) by (apply last_row_is_Some; eauto).
    set_solver.
Qed.

Lemma uploads_commute_witness :
  applications (reconciled "D" "IB" "t2" batch_refusal
                  (reconciled "D" "PM" "t1" batch_234 empty_db)) =
  applications (reconciled "D" "PM" "t1" batch_234
                  (reconciled "D" "IB" "t2" batch_refusal empty_db)) ∧
  loads (reconciled "D" "IB" "t2" batch_refusal
           (reconciled "D" "PM" "t1" batch_234 empty_db)) ≡ₚ
  loads (reconciled "D" "PM" "t1" batch_234
           (reconciled "D" "IB" "t2" batch_refusal empty_db)) ∧
  ∀ rowsa rowsb,
    _normalize_df (frame batch_234) = Ok rowsa →
    _normalize_df (frame batch_refusal) = Ok rowsb →
    batch_ids rowsa ## batch_ids rowsb →
    applicants (reconciled "D" "IB" "t2" batch_refusal
                  (reconciled "D" "PM" "t1" batch_234 empty_db)) =
    applicants (reconciled "D" "PM" "t1" batch_234
                  (reconciled "D" "IB" "t2" batch_refusal empty_db)).
Proof.
  apply (uploads_commute None None None None "t1" "t2" empty_db
           "D" "PM" (frame batch_234) "D" "IB" (frame batch_refusal) tt tt tt tt
           (reconciled "D" "PM" "t1" batch_234 empty_db) _
           (reconciled "D" "IB" "t2" batch_refusal empty_db)).
  - intros [_ ?]. done.
  - by vm_compute.
  - by vm_compute.
  - by vm_compute.
  - by vm_compute.
Defined.

(** X10. The newest snapshot is authoritative: uploading a second batch for
    the same (day, program) leaves the applications table that uploading the
    second batch alone would have left; nothing of the first batch
    survives there. *)
Theorem newest_snapshot_overrides
    f1 f2 f3 t1 t2 d day program df1 df2 u1 u2 u3 d1 d12 d2 :
  upsert_competition_list f1 t1 d day program df1 = (Ok u1, d1) →
  upsert_competition_list f2 t2 d1 day program df2 = (Ok u2, d12) →
  upsert_competition_list f3 t2 d day program df2 = (Ok u3, d2) →
  applications d12 = applications d2.
Proof.
  intros (rows1 & H1 & ->)%upsert_committed (rows2 & H2 & ->)%upsert_committed
    (rows2' & H2' & ->)%upsert_committed.
  assert (rows2' = rows2) as -> by congruence.
  apply map_eq. intros [[dy pg] i]. rewrite !reconciled_applications_lookup.
  by case_decide.
Qed.

Lemma newest_snapshot_overrides_witness :
  applications (reconciled "D" "PM" "t1" batch_234 store_123) =
  applications (reconciled "D" "PM" "t1" batch_234 empty_db).
Proof.
  apply (newest_snapshot_overrides None None None "t0" "t1" empty_db "D" "PM"
           (frame batch_123) (frame batch_234) tt tt tt store_123);
    by vm_compute.
Defined.

End ReconcileMore.

(** ** Validation: further results *)

Module ValidationMore.
Import Alloc Store Ref RefMore Samples AllocFacts TxFacts StoreFacts.

Lemma filter_ext_in {A} (P Q : A → Prop) `{∀ x, Decision (P x)} `{∀ x, Decision (Q x)}
    (l : list A) :
  (∀ x, x ∈ l → P x ↔ Q x) → filter P l = filter Q l.
Proof.
  induction l as [|x l IH]; intros Hext; [done|].
  rewrite !filter_cons, IH by (intros y Hy; apply Hext; by right).
  destruct (decide (P x)) as [HP|HP], (decide (Q x)) as [HQ|HQ]; try done.
  - destruct HQ. apply Hext; [by left|done].
  - destruct HP. apply Hext; [by left|done].
Qed.

Lemma astype_int_accepts col :
  (∃ zs, astype_int col = Ok zs) ↔ ∀ x, x ∈ col → ∃ z, int_of_cell x = Ok z.
Proof.
  induction col as [|c col IH]; cbn [astype_int].
  - split; [|eauto]. by intros _ x ?%elem_of_nil.
  - split.
    + intros [zs Hzs]. destruct (int_of_cell c) as [z|] eqn:Hc; [|done].
      cbn [rbind] in Hzs.
      destruct (astype_int col) as [zs'|] eqn:Hcol; [|done].
      intros x [ -> |Hx]%elem_of_cons; [eauto|].
      apply IH; eauto.
    + intros Hall. destruct (Hall c) as [z ->]; [by left|].
      destruct (proj2 IH) as [zs ->]; [intros x Hx; apply Hall; by right|].
      cbn [rbind]. eauto.
Qed.

Lemma rbind_Ok {A B} (m : result A) (k : A → result B) b :
  rbind m k = Ok b → ∃ a, m = Ok a ∧ k a = Ok b.
Proof. destruct m as [a|e]; simpl; [eauto|done]. Qed.

Lemma column_present df c :
  c ∈ dom df → ∃ col, df !! c = Some col ∧ column df c = col.
Proof.
  intros [col Hcol]%elem_of_dom. exists col. split; [done|].
  by apply column_lookup.
Qed.

(** X11. [_normalize_df] returns rows exactly when each of the eight
    required columns is present and holds only cells that coerce to an
    integer.  When a required column is missing it raises [ValueError],
    whatever the cells are; otherwise it raises what [astype(int)] raises on
    a cell of a required column: [ValueError], [TypeError] or
    [OverflowError]. *)
Theorem normalize_accepts_iff df :
  ((∃ rows, _normalize_df df = Ok rows) ↔
   ∀ c, c ∈ required →
        ∃ col, df !! c = Some col ∧ ∀ x, x ∈ col → ∃ z, int_of_cell x = Ok z) ∧
  ((∃ c, c ∈ required ∧ df !! c = None) → _normalize_df df = Raise ValueError) ∧
  (∀ e, _normalize_df df = Raise e →
        ((∃ c, c ∈ required ∧ df !! c = None) ∧ e = ValueError) ∨
        ((∀ c, c ∈ required → is_Some (df !! c)) ∧
         (e = ValueError ∨ e = TypeError ∨ e = OverflowError) ∧
         ∃ c x, c ∈ required ∧ x ∈ column df c ∧ int_of_cell x = Raise e)).
Proof.
  split_and!.
  - unfold _normalize_df. split.
    + intros [rows Hrows].
      destruct (filter _ required) as [|c0 l] eqn:Hmissing; [|done].
      assert (Hcols : ∀ c, c ∈ required → ∃ zs, astype_int (column df c) = Ok zs).
      { apply rbind_Ok in Hrows as (? & H1 & Hrows).
        apply rbind_Ok in Hrows as (? & H2 & Hrows).
        apply rbind_Ok in Hrows as (? & H3 & Hrows).
        apply rbind_Ok in Hrows as (? & H4 & Hrows).
        apply rbind_Ok in Hrows as (? & H5 & Hrows).
        apply rbind_Ok in Hrows as (? & H6 & Hrows).
        apply rbind_Ok in Hrows as (? & H7 & Hrows).
        apply rbind_Ok in Hrows as (? & H8 & Hrows).
        intros c [ -> |[ -> |[ -> |[ -> |[ -> |[ -> |[ -> | -> ]]]]]]]%elem_of_required;
          eauto. }
      intros c Hc.
      destruct (column_present df c) as (col & Hcol & Heq).
      { apply dec_stable. intros Hn.
        by apply (proj1 (filter_nil_iff _ _) Hmissing c Hc). }
      exists col. split; [done|]. rewrite <- Heq. by apply astype_int_accepts, Hcols.
    + intros Hall.
      assert (filter (fun c => c ∉ dom df) required = []) as ->.
      { apply filter_nil_iff. intros c Hc Hn. destruct (Hall c Hc) as (col & Hcol & _).
        apply Hn, elem_of_dom. eauto. }
      assert (Hcols : ∀ c, c ∈ required → ∃ zs, astype_int (column df c) = Ok zs).
      { intros c Hc. destruct (Hall c Hc) as (col & Hcol & Hcells).
        rewrite (column_lookup _ _ _ Hcol). by apply astype_int_accepts. }
      destruct (Hcols "id") as [? ->]; [apply elem_of_required; tauto|].
      destruct (Hcols "consent") as [? ->]; [apply elem_of_required; tauto|].
      destruct (Hcols "priority") as [? ->]; [apply elem_of_required; tauto|].
      destruct (Hcols "phys") as [? ->]; [apply elem_of_required; tauto|].
      destruct (Hcols "rus") as [? ->]; [apply elem_of_required; tauto|].
      destruct (Hcols "math") as [? ->]; [apply elem_of_required; tauto|].
      destruct (Hcols "indiv") as [? ->]; [apply elem_of_required; tauto|].
      destruct (Hcols "total") as [? ->]; [apply elem_of_required; tauto|].
      cbn [rbind]. eauto.
  - intros (c & Hc & Hnone). apply (normalize_missing_column df c Hc).
    by apply not_elem_of_dom.
  - intros e Hrun. pose proof (normalize_raises df e Hrun) as Hkind.
    unfold _normalize_df in Hrun.
    destruct (filter _ required) as [|c0 l] eqn:Hmissing.
    + right. split_and!; [|done|].
      * intros c Hc. apply elem_of_dom, dec_stable. intros Hn.
        by apply (proj1 (filter_nil_iff _ _) Hmissing c Hc).
      * assert (Hcol : ∀ c, astype_int (column df c) = Raise e → c ∈ required →
                  ∃ c x, c ∈ required ∧ x ∈ column df c ∧ int_of_cell x = Raise e).
        { intros c (x & Hx & Hraise)%astype_int_raises Hc. eauto. }
        repeat (apply rbind_raises in Hrun as [Hrun|(? & _ & Hrun)];
                [eapply Hcol; [exact Hrun|apply elem_of_required; tauto]|]).
        done.
    + left. injection Hrun as <-. split; [|done]. exists c0.
      assert (Hin : c0 ∈ filter (fun c => c ∉ dom df) required)
        by (rewrite Hmissing; by left).
      apply list_elem_of_filter in Hin as [Hn Hreq]. split; [done|].
      by apply not_elem_of_dom.
Qed.

Lemma normalize_accepts_iff_witness :
  (∀ c, c ∈ required →
        ∃ col, frame batch_123 !! c = Some col ∧
               ∀ x, x ∈ col → ∃ z, int_of_cell x = Ok z) ∧
  _normalize_df frame_no_total = Raise ValueError ∧
  (((∃ c, c ∈ required ∧ frame_bad_cell NoneCell !! c = None) ∧
    TypeError = ValueError) ∨
   ((∀ c, c ∈ required → is_Some (frame_bad_cell NoneCell !! c)) ∧
    (TypeError = ValueError ∨ TypeError = TypeError ∨ TypeError = OverflowError) ∧
    ∃ c x, c ∈ required ∧ x ∈ column (frame_bad_cell NoneCell) c ∧
           int_of_cell x = Raise TypeError)).
Proof.
  destruct (normalize_accepts_iff (frame batch_123)) as [[Hcols _] _].
  destruct (normalize_accepts_iff frame_no_total) as (_ & Hmiss & _).
  destruct (normalize_accepts_iff (frame_bad_cell NoneCell)) as (_ & _ & Hraise).
  split_and!.
  - apply Hcols. exists batch_123. by vm_compute.
  - apply Hmiss. exists "total". split; [|by vm_compute].
    apply elem_of_required. tauto.
  - apply (Hraise TypeError). by vm_compute.
Defined.

(** X12. A column whose label is not one of the eight required ones is
    ignored: adding it to a frame, or replacing its cells, changes neither
    the outcome nor the rows. *)
Theorem extra_columns_ignored df name col :
  name ∉ required →
  _normalize_df (<[name := col]> df) = _normalize_df df.
Proof.
  intros Hname. unfold _normalize_df.
  assert (Hne : ∀ c, c ∈ required → name ≠ c) by (intros c Hc ->; done).
  rewrite (filter_ext_in (fun c => c ∉ dom (<[name := col]> df))
             (fun c => c ∉ dom df)).
  - unfold column.
    rewrite !lookup_insert_ne by (apply Hne, elem_of_required; tauto). done.
  - intros c Hc. rewrite dom_insert, elem_of_union, elem_of_singleton.
    specialize (Hne c Hc). naive_solver.
Qed.

Lemma extra_columns_ignored_witness :
  _normalize_df (<["day" := [NotNumber; NoneCell; TooBig]]> (frame batch_123)) =
  Ok batch_123.
Proof.
  etrans.
  - apply (extra_columns_ignored (frame batch_123) "day" [NotNumber; NoneCell; TooBig]).
    intros H%elem_of_required. repeat destruct H as [H|H]; discriminate.
  - apply normalize_frame.
Defined.

End ValidationMore.

(** ** The read queries: further results *)

Module QueryMore.
Import Alloc Store Ref RefMore Samples AllocFacts TxFacts StoreFacts AllocMore.

Lemma order_by_total sort a b : order_by sort a b = false → order_by sort b a = true.
Proof.
  unfold order_by. repeat case_decide.
  - apply PyFacts.tuple_leb_total.
  - rewrite Z.leb_gt, Z.leb_le. lia.
  - apply PyFacts.tuple_leb_total.
Qed.

Lemma order_by_trans sort a b c :
  order_by sort a b = true → order_by sort b c = true → order_by sort a c = true.
Proof.
  unfold order_by. repeat case_decide.
  - apply PyFacts.tuple_leb_trans.
  - rewrite !Z.leb_le. lia.
  - apply PyFacts.tuple_leb_trans.
Qed.

(** X13. The list of a program comes out ordered as asked: by total
    ascending then id for [total_asc], by id for [id_asc], and by total
    descending then id ascending for [total_desc] and for any other value of
    [sort]. *)
Theorem list_ordered d program day consent sort :
  let out := query_program_list d program day consent sort in
  (sort = "total_asc" →
   StronglySorted (fun a b => n_total a < n_total b ∨
                              (n_total a = n_total b ∧ n_id a ≤ n_id b)) out) ∧
  (sort = "id_asc" → StronglySorted (fun a b => n_id a ≤ n_id b) out) ∧
  (sort ≠ "total_asc" → sort ≠ "id_asc" →
   StronglySorted (fun a b => n_total a > n_total b ∨
                              (n_total a = n_total b ∧ n_id a ≤ n_id b)) out).
Proof.
  intros out.
  assert (Hs : StronglySorted (fun a b => order_by sort a b = true) out).
  { apply PyFacts.sorted_sorted; [apply order_by_total|apply order_by_trans]. }
  split_and!.
  - intros ->. eapply PyFacts.StronglySorted_impl; [|exact Hs].
    intros a b. unfold order_by. rewrite decide_True by done.
    rewrite PyFacts.tuple_leb_spec. simpl. lia.
  - intros ->. eapply PyFacts.StronglySorted_impl; [|exact Hs].
    intros a b. unfold order_by. rewrite decide_False, decide_True by done.
    apply Z.leb_le.
  - intros H1 H2. eapply PyFacts.StronglySorted_impl; [|exact Hs].
    intros a b. unfold order_by. rewrite !decide_False by done.
    rewrite PyFacts.tuple_leb_spec. simpl. lia.
Qed.

Lemma list_ordered_witness :
  StronglySorted (fun a b => n_total a > n_total b ∨
                             (n_total a = n_total b ∧ n_id a ≤ n_id b))
    (query_program_list store_123 "PM" None None "newest") ∧
  (n_id <$> query_program_list store_123 "PM" None None "newest") = [3; 1; 2].
Proof.
  split; [|by vm_compute].
  apply (list_ordered store_123 "PM" None None "newest"); discriminate.
Defined.

Lemma NoDup_omap_keys {K A B} (f : K * A → option B) (g : B → K) (l : list (K * A)) :
  NoDup l.*1 → (∀ kv b, f kv = Some b → kv.1 = g b) → NoDup (omap f l).
Proof.
  intros Hnd Hkey. induction l as [|kv l IH]; simpl; [constructor|].
  rewrite fmap_cons in Hnd. apply NoDup_cons in Hnd as [Hkv Hnd].
  destruct (f kv) as [b|] eqn:Hb; [|by apply IH].
  apply NoDup_cons. split; [|by apply IH].
  intros (kv' & Hin & Hb')%list_elem_of_omap.
  apply Hkv. apply list_elem_of_fmap. exists kv'. split; [|done].
  by rewrite (Hkey _ _ Hb), (Hkey _ _ Hb').
Qed.

(** X14. With a day given, the list of a program holds each applicant at
    most once. *)
Theorem one_row_per_applicant d program dy consent sort :
  dy ≠ "" →
  NoDup (n_id <$> query_program_list d program (Some dy) consent sort).
Proof.
  intros Hdy. unfold query_program_list. rewrite PyFacts.sorted_perm.
  set (f := fun kv => program_row program (Some dy) consent kv (applicants d)).
  assert (Hkey : ∀ kv q, f kv = Some q → kv.1 = (dy, program, n_id q)).
  { intros [[[dy' pg] i] a] q. unfold f, program_row. simpl.
    case_decide as Hpg; [subst pg|done].
    rewrite decide_False by done.
    destruct (bool_decide (dy' = dy)) eqn:Hday; simpl; [|done].
    apply bool_decide_eq_true in Hday as ->.
    destruct (consent_selected consent (a_consent a)); [|done].
    destruct (applicants d !! i); [|done]. simpl. by intros [= <-]. }
  apply NoDup_fmap_2_strong.
  - intros q1 q2 (kv1 & Hin1 & H1)%list_elem_of_omap
      (kv2 & Hin2 & H2)%list_elem_of_omap Hid.
    assert (kv1.1 = kv2.1) as Hk
      by (rewrite (Hkey _ _ H1), (Hkey _ _ H2); by rewrite Hid).
    destruct kv1 as [k1 a1], kv2 as [k2 a2]. simpl in Hk. subst k2.
    apply elem_of_map_to_list in Hin1, Hin2.
    assert (a1 = a2) as -> by congruence. congruence.
  - eapply (NoDup_omap_keys f (fun q => (dy, program, n_id q))); [|done].
    apply NoDup_fst_map_to_list.
Qed.

Lemma one_row_per_applicant_witness :
  NoDup (n_id <$> query_program_list store_123 "PM" (Some "D") None "id_asc").
Proof. apply (one_row_per_applicant store_123 "PM" "D" None "id_asc"). discriminate. Defined.

(** X15. The allocation for a day reads the store: whoever it puts on the
    list of a program has, for that day and program, a stored application with
    consent 1, and is ranked by the total of their score row; a cutoff, when
    present, is the stored total of the applicant admitted last. *)
Theorem allocation_reads_store d day acc cut :
  compute_admission_from_db d day = Ok (acc, cut) →
  (∀ p l a, acc !! p = Some l → a ∈ l →
     ∃ f s, applications d !! (day, p, a) = Some f ∧ a_consent f = 1 ∧
            applicants d !! a = Some s ∧
            total_score (select_day_rows d day) a = s_total s) ∧
  (∀ p c, cut !! p = Some (Some c) →
     ∃ l a s, acc !! p = Some l ∧ last l = Some a ∧
              applicants d !! a = Some s ∧ c = s_total s).
Proof.
  unfold compute_admission_from_db. set (rows := select_day_rows d day).
  intros Hrun.
  assert (Hagree : ∀ r1 r2, r1 ∈ rows → r2 ∈ rows → r_id r1 = r_id r2 →
                            r_total r1 = r_total r2).
  { intros r1 r2 (f1 & s1 & _ & Hs1 & ->)%Queries.elem_of_select_day_rows
      (f2 & s2 & _ & Hs2 & ->)%Queries.elem_of_select_day_rows. simpl.
    intros Hid. rewrite Hid in Hs1. congruence. }
  assert (Hlist : ∀ p l a, acc !! p = Some l → a ∈ l →
     ∃ f s, applications d !! (day, p, a) = Some f ∧ a_consent f = 1 ∧
            applicants d !! a = Some s ∧ total_score rows a = s_total s).
  { intros p l a Hl Ha.
    pose proof (on_list_asked _ _ _ _ _ _ Hrun Hl Ha) as Hasked.
    apply elem_of_prefs_of in Hasked as (r & Hr & Hc & <- & <-).
    pose proof (Allocation.total_score_consistent rows r Hagree Hr Hc) as Htot.
    apply Queries.elem_of_select_day_rows in Hr as (f & s & Hf & Hs & Hrow).
    exists f, s. rewrite Htot, Hrow in *. simpl in *. done. }
  split; [exact Hlist|].
  intros p c Hc.
  pose proof (compute_admission_inv _ _ _ Hrun) as (_ & (Hdom & _ & _ & Hcap) & Hcut).
  destruct (cutoffs_lookup _ _ _ _ _ p Hcut) as [_ Hout].
  assert (Hp : p ∈ PROGRAMS).
  { destruct (decide (p ∈ PROGRAMS)) as [|Hn]; [done|].
    by rewrite (Hout Hn), lookup_empty in Hc. }
  apply SEATS_known in Hp as [cap Hseats].
  assert (is_Some (acc !! p)) as [l Hl].
  { apply elem_of_dom. rewrite Hdom. apply elem_of_dom. eauto. }
  destruct (decide (Z.of_nat (length l) < cap)) as [Hshort|Hfull].
  - by rewrite (cutoff_when_short _ _ _ _ _ _ Hrun Hl Hseats Hshort) in Hc.
  - destruct (cutoff_when_full _ _ _ _ _ _ Hrun Hl Hseats) as (a & Hlast & Hcuta);
      [lia|].
    rewrite Hcuta in Hc. injection Hc as <-.
    destruct (Hlist p l a Hl) as (f & s & _ & _ & Hs & Htot);
      [by apply last_Some_elem_of|].
    by exists l, a, s.
Qed.

Lemma allocation_reads_store_witness :
  ∃ f s, applications store_123 !! ("D", "PM", 2) = Some f ∧ a_consent f = 1 ∧
         applicants store_123 !! 2 = Some s ∧
         total_score (select_day_rows store_123 "D") 2 = s_total s.
Proof.
  destruct (allocation_reads_store store_123 "D"
              (<["PM" := [1; 2]]> init_accepted) init_cut) as [Hlist _];
    [by vm_compute|].
  apply (Hlist "PM" [1; 2] 2); [by vm_compute|].
  apply elem_of_cons. right. by left.
Defined.

End QueryMore.

(** ** The cascade view: results *)

Module ViewFacts.
Import Alloc Store Ref Views Samples SamplesMore StoreFacts.

Lemma group_snoc rows r : group (rows ++ [r]) = group_step (group rows) r.
Proof. unfold group. by rewrite foldl_snoc. Qed.

Lemma group_lookup_total rows i :
  group rows !!! i = filter (fun r => r_id r = i) rows.
Proof.
  induction rows as [|r rows IH] using rev_ind.
  - unfold group. simpl. by rewrite lookup_total_empty.
  - rewrite group_snoc, filter_app, filter_cons, filter_nil. unfold group_step.
    destruct (decide (r_id r = i)) as [->|Hne].
    + by rewrite lookup_total_insert_eq, IH.
    + by rewrite lookup_total_insert_ne, IH, app_nil_r.
Qed.

Lemma group_dom rows i :
  i ∈ dom (group rows) ↔ ∃ r, r ∈ rows ∧ r_id r = i.
Proof.
  induction rows as [|r rows IH] using rev_ind.
  - unfold group. simpl. rewrite dom_empty, elem_of_empty.
    split; [done|]. by intros (r & ?%elem_of_nil & _).
  - rewrite group_snoc. unfold group_step.
    rewrite dom_insert, elem_of_union, IH, elem_of_singleton.
    setoid_rewrite elem_of_app. setoid_rewrite list_elem_of_singleton.
    naive_solver.
Qed.

Lemma group_lookup rows i items :
  group rows !! i = Some items →
  items = filter (fun r => r_id r = i) rows ∧ items ≠ [].
Proof.
  intros Hitems. split.
  - by rewrite <- group_lookup_total, (lookup_total_correct _ _ _ Hitems).
  - assert (i ∈ dom (group rows)) as (r & Hr & Hid)%group_dom
      by (apply elem_of_dom; eauto).
    assert (Hin : r ∈ group rows !!! i)
      by (rewrite group_lookup_total; by apply list_elem_of_filter).
    rewrite (lookup_total_correct _ _ _ Hitems) in Hin.
    intros ->. by apply elem_of_nil in Hin.
Qed.

Lemma foldl_max_spec l x :
  x ≤ foldl Z.max x l ∧
  (∀ y, y ∈ l → y ≤ foldl Z.max x l) ∧
  (foldl Z.max x l = x ∨ foldl Z.max x l ∈ l).
Proof.
  revert x. induction l as [|z l IH]; intros x; simpl.
  - split_and!; [lia| |by left]. by intros y ?%elem_of_nil.
  - destruct (IH (Z.max x z)) as (Hle & Hall & Hin). split_and!.
    + lia.
    + intros y [->|Hy]%elem_of_cons; [lia|by apply Hall].
    + destruct Hin as [Heq|Hin]; [|right; by right].
      rewrite Heq. destruct (Z.max_spec x z) as [[_ ->]|[_ ->]]; [right; by left|by left].
Qed.

Lemma py_max_spec l :
  l ≠ [] → ∃ m, py_max l = Ok m ∧ (∀ x, x ∈ l → x ≤ m) ∧ m ∈ l.
Proof.
  destruct l as [|x l]; [done|]. intros _. simpl. eexists. split; [done|].
  destruct (foldl_max_spec l x) as (Hle & Hall & Hin). split.
  - intros y [->|Hy]%elem_of_cons; [done|by apply Hall].
  - destruct Hin as [->|Hin]; [by left|by right].
Qed.

Lemma card_of_spec rows i :
  filter (fun r => r_id r = i) rows ≠ [] →
  ∃ c, card_of i (filter (fun r => r_id r = i) rows) = Ok c ∧
       c_id c = i ∧ card_for rows c.
Proof.
  intros Hne. set (items := filter (fun r => r_id r = i) rows) in *.
  destruct (py_max_spec (r_total <$> items)) as (m & Hm & Hall & Hin).
  { intros Hnil. apply fmap_nil_inv in Hnil. done. }
  unfold card_of. rewrite Hm. cbn [rbind]. eexists. split; [done|].
  split; [done|]. unfold card_for. cbn [c_id c_any_consent c_max_total c_cascade].
  fold items. split_and!; [done| | | |done].
  - rewrite existsb_exists. split.
    + intros (r & Hr%list_elem_of_In & Hc%Z.eqb_eq). eauto.
    + intros (r & Hr & Hc). exists r. by rewrite <- list_elem_of_In, Z.eqb_eq.
  - intros r Hr. apply Hall. by apply list_elem_of_fmap_2.
  - apply list_elem_of_fmap in Hin as (r & -> & Hr). eauto.
Qed.

Lemma cards_spec rows (l : list (Z * list row)) :
  (∀ i items, (i, items) ∈ l →
              items = filter (fun r => r_id r = i) rows ∧ items ≠ []) →
  ∃ out, cards l = Ok out ∧ c_id <$> out = l.*1 ∧ Forall (card_for rows) out.
Proof.
  induction l as [|[i items] l IH]; intros Hl; simpl; [by exists []|].
  destruct (Hl i items) as [-> Hne]; [by left|].
  destruct (card_of_spec rows i Hne) as (c & -> & Hid & Hcard).
  destruct IH as (out & -> & Hids & Hall).
  { intros j k Hin. apply Hl. by right. }
  cbn [rbind]. exists (c :: out). split; [done|]. split.
  - by rewrite fmap_cons, Hid, Hids.
  - by constructor.
Qed.

Lemma StronglySorted_strict_on {A B} (f : A → B) (R : relation A) l :
  StronglySorted R l → NoDup (f <$> l) →
  StronglySorted (fun a b => R a b ∧ f a ≠ f b) l.
Proof.
  induction 1 as [|x l Hs IH Hall]; intros Hnd; [constructor|].
  rewrite fmap_cons in Hnd. apply NoDup_cons in Hnd as [Hx Hnd].
  constructor; [by apply IH|].
  apply Forall_forall. intros y Hy. split.
  - by eapply Forall_forall in Hall.
  - intros Heq. apply Hx. rewrite Heq. by apply list_elem_of_fmap_2.
Qed.

Lemma card_leb_total a b : card_leb a b = false → card_leb b a = true.
Proof. apply PyFacts.tuple_leb_total. Qed.

Lemma card_leb_trans a b c :
  card_leb a b = true → card_leb b c = true → card_leb a c = true.
Proof. apply PyFacts.tuple_leb_trans. Qed.

(** The list before it is cut to [limit]. *)
Lemma cascade_unfold rows :
  ∃ every,
    (∀ limit,
       query_all_applicants_with_cascade rows limit = Ok (slice_to limit every)) ∧
    NoDup (c_id <$> every) ∧
    Forall (card_for rows) every ∧
    StronglySorted card_before every ∧
    (∀ i, i ∈ c_id <$> every ↔ ∃ r, r ∈ rows ∧ r_id r = i) ∧
    length every = size (list_to_set (r_id <$> rows) : gset Z).
Proof.
  unfold query_all_applicants_with_cascade.
  set (per := group rows).
  destruct (cards_spec rows (map_to_list per)) as (out & -> & Hids & Hall).
  { intros i items Hin%elem_of_map_to_list. by apply group_lookup. }
  cbn [rbind]. exists (Py.sorted card_leb out).
  assert (Hperm : Py.sorted card_leb out ≡ₚ out) by apply PyFacts.sorted_perm.
  assert (Hnd : NoDup (c_id <$> Py.sorted card_leb out)).
  { rewrite Hperm, Hids. apply NoDup_fst_map_to_list. }
  split_and!; [done|done| | | |].
  - by rewrite Hperm.
  - eapply PyFacts.StronglySorted_impl;
      [|apply (StronglySorted_strict_on c_id);
         [apply (PyFacts.sorted_sorted card_leb);
          [apply card_leb_total|apply card_leb_trans]|done]].
    intros a b [Hle Hne]. unfold card_leb in Hle.
    apply PyFacts.tuple_leb_spec in Hle. simpl in Hle. unfold card_before. lia.
  - intros i. rewrite Hperm, Hids. etrans; [|apply group_dom]. fold per.
    rewrite elem_of_dom. split.
    + intros ([j items] & -> & Hin%elem_of_map_to_list)%list_elem_of_fmap. eauto.
    + intros [items Hitems]. apply list_elem_of_fmap. exists (i, items).
      split; [done|]. by apply elem_of_map_to_list.
  - rewrite Hperm. rewrite <- (length_fmap c_id), Hids, length_fmap, length_map_to_list.
    rewrite <- size_dom. f_equal. apply set_eq. intros i. unfold per.
    rewrite group_dom, elem_of_list_to_set, list_elem_of_fmap. naive_solver.
Qed.


Lemma slice_to_all {A} limit (l : list A) :
  Z.of_nat (length l) ≤ limit → slice_to limit l = l.
Proof.
  intros Hle. unfold slice_to. rewrite (proj2 (Z.leb_le 0 limit)) by lia.
  apply take_ge. lia.
Qed.

Lemma slice_to_take {A} limit (l : list A) :
  slice_to limit l =
  take (if 0 <=? limit then Z.to_nat limit
        else (length l - Z.to_nat (- limit))%nat) l.
Proof.
  unfold slice_to. destruct (0 <=? limit) eqn:Hsign; [done|].
  apply Z.leb_gt in Hsign. f_equal. lia.
Qed.

Lemma ids_size_le (rows : list row) :
  (size (list_to_set (r_id <$> rows) : gset Z) ≤ length rows)%nat.
Proof.
  induction rows as [|r rows IH]; [done|].
  rewrite fmap_cons, list_to_set_cons. cbn [length].
  rewrite size_union_alt, size_singleton.
  assert (size ((list_to_set (r_id <$> rows) : gset Z) ∖ {[r_id r]})
          ≤ size (list_to_set (r_id <$> rows) : gset Z))%nat
    by (apply subseteq_size, subseteq_difference_l; done).
  lia.
Qed.

Lemma yields_elem_of d day rows r :
  yields d day rows → r ∈ rows ↔ r ∈ select_rows d day.
Proof. unfold yields. by intros ->. Qed.

Lemma yields_ids d day rows :
  yields d day rows →
  (list_to_set (r_id <$> rows) : gset Z) = list_to_set (r_id <$> select_rows d day).
Proof.
  intros Hrows. apply set_eq. intros i.
  rewrite !elem_of_list_to_set, !list_elem_of_fmap.
  by setoid_rewrite (yields_elem_of d day rows _ Hrows).
Qed.



Lemma rows_day_E_yielded : yields store_two_days (Some "E") rows_day_E.
Proof.
  unfold yields.
  replace (select_rows store_two_days (Some "E")) with
    [Row 3 "IB" 1 0 280; Row 2 "IB" 2 1 210; Row 4 "IB" 1 1 150]
    by (by vm_compute).
  unfold rows_day_E.
  etrans; [apply Permutation_swap|]. done.
Qed.


(** X17. The cards come ordered by [max_total] descending, ties by id
    ascending, one for each applicant of the selection, and the result is
    that ordered list cut as the slice [out[:limit]] cuts it: its first
    [limit] cards when [limit] is not negative, and all but its last
    [-limit] cards when it is. *)
Theorem cascade_ordered_and_cut d day rows limit out :
  yields d day rows →
  query_all_applicants_with_cascade rows limit = Ok out →
  ∃ every,
    query_all_applicants_with_cascade rows (Z.of_nat (length rows)) = Ok every ∧
    StronglySorted card_before every ∧
    (∀ i, i ∈ c_id <$> every ↔ ∃ r, r ∈ select_rows d day ∧ r_id r = i) ∧
    length every = size (list_to_set (r_id <$> select_rows d day) : gset Z) ∧
    (0 ≤ limit → out = take (Z.to_nat limit) every) ∧
    (limit < 0 → out = take (length every - Z.to_nat (- limit)) every).
Proof.
  intros Hrows.
  destruct (cascade_unfold rows) as (every & Hrun & _ & _ & Hsorted & Hids & Hlen).
  rewrite Hrun. intros [= <-]. exists every. split_and!.
  - rewrite Hrun, slice_to_all; [done|].
    rewrite Hlen. pose proof (ids_size_le rows). lia.
  - done.
  - intros i. rewrite Hids.
    by setoid_rewrite (yields_elem_of d day rows _ Hrows).
  - by rewrite Hlen, (yields_ids d day rows Hrows).
  - intros Hsign. rewrite slice_to_take.
    by rewrite (proj2 (Z.leb_le 0 limit)) by lia.
  - intros Hsign. rewrite slice_to_take.
    by rewrite (proj2 (Z.leb_gt 0 limit)) by lia.
Qed.

Lemma cascade_ordered_and_cut_witness :
  ∃ every,
    query_all_applicants_with_cascade rows_day_E (Z.of_nat (length rows_day_E))
      = Ok every ∧
    StronglySorted card_before every ∧
    (∀ i, i ∈ c_id <$> every ↔
          ∃ r, r ∈ select_rows store_two_days (Some "E") ∧ r_id r = i) ∧
    length every =
      size (list_to_set (r_id <$> select_rows store_two_days (Some "E")) : gset Z) ∧
    (0 ≤ -1 →
     [Card 3 false 280 "IB:1"; Card 2 true 210 "IB:2"] = take (Z.to_nat (-1)) every) ∧
    (-1 < 0 →
     [Card 3 false 280 "IB:1"; Card 2 true 210 "IB:2"] =
     take (length every - Z.to_nat (- -1)) every).
Proof.
  apply (cascade_ordered_and_cut store_two_days (Some "E") rows_day_E (-1)).
  - apply rows_day_E_yielded.
  - by vm_compute.
Defined.

End ViewFacts.

(** ** Per-priority statistics: results *)

Module StatsFacts.
Import Alloc Store Ref Views Stats Samples SamplesMore AllocFacts StoreFacts AllocMore.

Lemma omap_cons_eq {A B} (f : A → option B) x l :
  omap f (x :: l) = match f x with Some y => y :: omap f l | None => omap f l end.
Proof. done. Qed.

Lemma consenting_row_joined day kv apl :
  consenting_row day kv apl =
  match joined_row day kv apl with
  | Some r => if decide (r_consent r = 1) then Some r else None
  | None => None
  end.
Proof.
  unfold consenting_row, joined_row.
  destruct (decide (kv.1.1.1 = day)) as [Hday|Hday].
  - destruct (apl !! kv.1.2) as [s|]; simpl.
    + destruct (decide (a_consent kv.2 = 1)).
      * by rewrite decide_True.
      * by rewrite decide_False by tauto.
    + by case_decide.
  - by rewrite decide_False by tauto.
Qed.

Lemma select_consenting_rows_filter d day :
  select_consenting_rows d day = consenting (select_day_rows d day).
Proof.
  unfold select_consenting_rows, select_day_rows, consenting.
  induction (map_to_list (applications d)) as [|kv l IH]; [done|].
  rewrite !omap_cons_eq, consenting_row_joined, IH.
  destruct (joined_row day kv (applicants d)) as [r|]; [|done].
  rewrite filter_cons. by case_decide.
Qed.

Lemma init_counts_fold (l : list (string * Z)) (m : gmap (string * Z) Z) k :
  foldl (fun m k => <[k := 0]> m) m l !! k =
  if decide (k ∈ l) then Some 0 else m !! k.
Proof.
  revert m. induction l as [|k0 l IH]; intros m; cbn [foldl].
  - rewrite decide_False; [done|]. by intros ?%elem_of_nil.
  - rewrite IH. destruct (decide (k ∈ l)) as [Hin|Hin].
    + rewrite decide_True; [done|]. by right.
    + destruct (decide (k0 = k)) as [->|Hne].
      * rewrite lookup_insert_eq, decide_True; [done|]. by left.
      * rewrite lookup_insert_ne by done. rewrite decide_False; [done|].
        intros [?|?]%elem_of_cons; congruence.
Qed.

Lemma init_counts_lookup p pr n :
  init_counts !! (p, pr) = Some n ↔
  p ∈ PROGRAMS ∧ pr ∈ [1; 2; 3; 4] ∧ n = 0.
Proof.
  unfold init_counts. rewrite init_counts_fold, lookup_empty.
  case_decide as Hin.
  - apply list_elem_of_bind in Hin as (p' & Hin & Hp).
    apply list_elem_of_bind in Hin as (pr' & Hin & Hpr).
    apply list_elem_of_singleton in Hin as [= -> ->]. naive_solver.
  - split; [done|]. intros (Hp & Hpr & _). destruct Hin.
    apply list_elem_of_bind. exists p. split; [|done].
    apply list_elem_of_bind. exists pr. split; [|done]. by left.
Qed.

(** *** The tally loop *)

Lemma tally_raises am counts rows e : tally am counts rows = Raise e → e = KeyError.
Proof.
  revert counts. induction rows as [|r rows IH]; intros counts; simpl; [done|].
  unfold subscript.
  destruct (am !! r_program r) as [l|]; simpl; [|by intros [= <-]].
  case_decide; [|apply IH].
  destruct (counts !! (r_program r, r_priority r)) as [n|]; simpl;
    [apply IH|by intros [= <-]].
Qed.

Lemma admitted_with_cons p pr l r rows :
  admitted_with p pr l (r :: rows) =
  (if decide (r_program r = p ∧ r_priority r = pr ∧ r_id r ∈ l) then 1 else 0)
  + admitted_with p pr l rows.
Proof.
  unfold admitted_with. rewrite filter_cons. case_decide; simpl; lia.
Qed.

Lemma tally_spec am counts rows counts' :
  tally am counts rows = Ok counts' →
  (∀ p pr l, am !! p = Some l →
             counts' !! (p, pr) =
             (fun n => n + admitted_with p pr l rows) <$> counts !! (p, pr)) ∧
  (∀ r, r ∈ rows →
        ∃ l, am !! r_program r = Some l ∧
             (r_id r ∈ l → (r_program r, r_priority r) ∈ dom counts)).
Proof.
  revert counts. induction rows as [|r rows IH]; intros counts; simpl.
  - intros [= <-]. split.
    + intros p pr l _. unfold admitted_with. simpl.
      destruct (counts !! (p, pr)); simpl; [f_equal; lia|done].
    + by intros r ?%elem_of_nil.
  - unfold subscript.
    destruct (am !! r_program r) as [l|] eqn:Hl; simpl; [|done].
    destruct (decide (r_id r ∈ l)) as [Hin|Hout].
    + destruct (counts !! (r_program r, r_priority r)) as [n|] eqn:Hn; simpl; [|done].
      intros [Hcount Hrows]%IH. split.
      * intros p pr l' Hl'. rewrite (Hcount p pr l' Hl'), admitted_with_cons.
        destruct (decide ((r_program r, r_priority r) = (p, pr))) as [[= <- <-]|Hne].
        -- rewrite lookup_insert_eq, Hn. simpl. simplify_eq.
           rewrite decide_True by done. f_equal. lia.
        -- rewrite lookup_insert_ne by done.
           rewrite decide_False by (intros (<- & <- & _); done).
           destruct (counts !! (p, pr)); simpl; [f_equal; lia|done].
      * intros r' [->|Hr']%elem_of_cons.
        -- exists l. split; [done|]. intros _. apply elem_of_dom. eauto.
        -- destruct (Hrows r' Hr') as (l' & Hl' & Hdom). exists l'. split; [done|].
           intros Hr. specialize (Hdom Hr). rewrite dom_insert in Hdom.
           apply elem_of_union in Hdom as [->%elem_of_singleton|]; [|done].
           apply elem_of_dom. eauto.
    + intros [Hcount Hrows]%IH. split.
      * intros p pr l' Hl'. rewrite (Hcount p pr l' Hl'), admitted_with_cons.
        rewrite decide_False.
        -- destruct (counts !! (p, pr)); simpl; [f_equal; lia|done].
        -- intros (<- & _ & Hin). simplify_eq. done.
      * intros r' [->|Hr']%elem_of_cons; [exists l; by split|by apply Hrows].
Qed.

(** *** Counting the admitted *)

Lemma sum_by_priority p l rows :
  (∀ r, r ∈ rows → r_program r = p → r_id r ∈ l → r_priority r ∈ [1; 2; 3; 4]) →
  admitted_with p 1 l rows + admitted_with p 2 l rows +
  admitted_with p 3 l rows + admitted_with p 4 l rows =
  Z.of_nat (length (filter (fun r => r_program r = p ∧ r_id r ∈ l) rows)).
Proof.
  induction rows as [|r rows IH]; intros Hpr; [done|].
  rewrite !admitted_with_cons, filter_cons.
  specialize (IH (fun r' Hr' => Hpr r' (list_elem_of_further _ _ _ Hr'))).
  destruct (decide (r_program r = p ∧ r_id r ∈ l)) as [[Hp Hi]|Hn].
  - assert (Hone : ∀ pr,
      (if decide (r_program r = p ∧ r_priority r = pr ∧ r_id r ∈ l) then 1 else 0) =
      (if decide (r_priority r = pr) then 1 else 0)).
    { intros pr. destruct (decide (r_priority r = pr)).
      - by rewrite decide_True.
      - by rewrite decide_False by tauto. }
    rewrite !Hone. simpl length.
    specialize (Hpr r (list_elem_of_here _ _) Hp Hi).
    rewrite !elem_of_cons, elem_of_nil in Hpr.
    destruct Hpr as [->|[->|[->|[->|[]]]]]; simpl; lia.
  - rewrite !decide_False by tauto. lia.
Qed.

Lemma NoDup_fmap_eq {A B} (f : A → B) (l : list A) x y :
  NoDup (f <$> l) → x ∈ l → y ∈ l → f x = f y → x = y.
Proof.
  induction l as [|z l IH]; [by intros _ ?%elem_of_nil|].
  rewrite fmap_cons. intros [Hz Hnd]%NoDup_cons.
  intros [->|Hx]%elem_of_cons [->|Hy]%elem_of_cons Heq; [done| | |by apply IH].
  - destruct Hz. rewrite Heq. by apply list_elem_of_fmap_2.
  - destruct Hz. rewrite <- Heq. by apply list_elem_of_fmap_2.
Qed.

Lemma day_rows_keys_NoDup d day :
  NoDup ((fun r => (r_program r, r_id r)) <$> select_day_rows d day).
Proof.
  apply NoDup_fmap_2_strong.
  - intros [i1 p1 pr1 c1 t1] [i2 p2 pr2 c2 t2]
      (f1 & s1 & Hf1 & Hs1 & Hr1)%Queries.elem_of_select_day_rows
      (f2 & s2 & Hf2 & Hs2 & Hr2)%Queries.elem_of_select_day_rows.
    simpl in *. intros [= -> ->]. congruence.
  - unfold select_day_rows.
    eapply (QueryMore.NoDup_omap_keys _ (fun r => (day, r_program r, r_id r)));
      [apply NoDup_fst_map_to_list|].
    intros [[[dy pg] i] a] r. unfold joined_row. simpl.
    case_decide as Hday; [subst dy|done].
    destruct (applicants d !! i); [|done]. simpl. by intros [= <-].
Qed.

Lemma admitted_rows_length p l (rows : list row) :
  NoDup l → NoDup ((fun r => (r_program r, r_id r)) <$> rows) →
  (∀ a, a ∈ l → ∃ r, r ∈ rows ∧ r_id r = a ∧ r_program r = p) →
  length (filter (fun r => r_program r = p ∧ r_id r ∈ l) rows) = length l.
Proof.
  intros Hl Hkeys Hrows.
  set (P := fun r => r_program r = p ∧ r_id r ∈ l).
  rewrite <- (length_fmap r_id). apply Permutation_length, NoDup_Permutation; [|done|].
  - apply NoDup_fmap_2_strong.
    + intros r1 r2 [[Hp1 _] Hr1]%list_elem_of_filter [[Hp2 _] Hr2]%list_elem_of_filter Hid.
      eapply (NoDup_fmap_eq _ _ _ _ Hkeys); [done..|]. simpl. congruence.
    + apply NoDup_filter. by eapply NoDup_fmap_1.
  - intros a. rewrite list_elem_of_fmap. split.
    + by intros (r & -> & [[_ Hin] _]%list_elem_of_filter).
    + intros Ha. destruct (Hrows a Ha) as (r & Hr & <- & Hp).
      exists r. split; [done|]. by apply list_elem_of_filter.
Qed.

(** X18. When [_stats_for_day] returns, its assignment and cutoffs are
    those of [compute_admission_from_db], and for every program the count
    kept under priority 1 to 4 is the number of admitted applicants whose
    consenting application to the program has that priority; the four counts
    add up to the length of the program's list. *)
Theorem stats_admitted_counts d day appl counts acc cut :
  _stats_for_day d day = Ok (appl, counts, acc, cut) →
  compute_admission_from_db d day = Ok (acc, cut) ∧
  ∀ p l, acc !! p = Some l →
    (∀ pr, pr ∈ [1; 2; 3; 4] →
           counts !! (p, pr) =
           Some (admitted_with p pr l (select_consenting_rows d day))) ∧
    count_at counts (p, 1) + count_at counts (p, 2) +
    count_at counts (p, 3) + count_at counts (p, 4) = Z.of_nat (length l).
Proof.
  unfold _stats_for_day, compute_admission_from_db.
  rewrite select_consenting_rows_filter. set (rows := select_day_rows d day).
  destruct (compute_admission rows) as [[acc0 cut0]|] eqn:Hrun; cbn [rbind]; [|done].
  assert (Hrun2 : compute_admission (consenting rows) = Ok (acc0, cut0))
    by (rewrite <- Hrun; apply compute_admission_same_consenting, consenting_idemp).
  intros Hstats.
  assert (∃ c, (match consenting rows with
                | [] => Ok init_counts
                | _ => let* res2 := compute_admission (consenting rows) in
                       tally res2.1 init_counts (consenting rows)
                end) = Ok c ∧ c = counts ∧ acc0 = acc ∧ cut0 = cut)
    as (c & Hc & -> & -> & ->).
  { destruct (match consenting rows with [] => _ | _ => _ end) as [c|]; simpl in Hstats;
      [|done]. injection Hstats as _ <- <- <-. eauto. }
  clear Hstats. split; [done|]. intros p l Hl.
  pose proof (compute_admission_inv _ _ _ Hrun) as (_ & (Hdom & Hsub & _ & _) & _).
  assert (Hp : p ∈ PROGRAMS).
  { apply SEATS_known, elem_of_dom. rewrite <- Hdom. apply elem_of_dom. eauto. }
  assert (Hcounts : ∀ pr, pr ∈ [1; 2; 3; 4] →
            counts !! (p, pr) = Some (admitted_with p pr l (consenting rows)) ∧
            (∀ r, r ∈ consenting rows → r_program r = p → r_id r ∈ l →
                  r_priority r ∈ [1; 2; 3; 4])).
  { intros pr Hpr.
    assert (Hinit : init_counts !! (p, pr) = Some 0) by by apply init_counts_lookup.
    destruct (consenting rows) as [|r0 rest] eqn:Hrows.
    - injection Hc as <-. split; [done|]. by intros r ?%elem_of_nil.
    - rewrite Hrun2 in Hc. cbn [rbind fst] in Hc.
      apply tally_spec in Hc as [Hcount Hall]. split.
      + rewrite (Hcount p pr l Hl), Hinit. done.
      + intros r Hr <- Hin. destruct (Hall r Hr) as (l' & Hl' & Hkey).
        assert (l' = l) as -> by congruence.
        apply Hkey, elem_of_dom in Hin as [n Hn].
        by apply init_counts_lookup in Hn as (_ & ? & _). }
  split; [intros pr Hpr; by apply Hcounts|].
  unfold count_at.
  rewrite (proj1 (Hcounts 1 ltac:(rewrite !elem_of_cons; tauto))),
    (proj1 (Hcounts 2 ltac:(rewrite !elem_of_cons; tauto))),
    (proj1 (Hcounts 3 ltac:(rewrite !elem_of_cons; tauto))),
    (proj1 (Hcounts 4 ltac:(rewrite !elem_of_cons; tauto))). simpl.
  rewrite sum_by_priority
    by apply (proj2 (Hcounts 1 ltac:(rewrite !elem_of_cons; tauto))).
  f_equal. apply admitted_rows_length.
  - eapply sublist_NoDup; [apply processing_order_NoDup|by eapply Hsub].
  - eapply sublist_NoDup; [apply day_rows_keys_NoDup|].
    apply fmap_sublist, sublist_filter.
  - intros a Ha.
    pose proof (on_list_asked _ _ _ _ _ _ Hrun Hl Ha) as Hasked.
    apply elem_of_prefs_of in Hasked as (r & Hr & Hcons & Hid & Hprog).
    exists r. split; [|done]. by apply elem_of_consenting.
Qed.

Lemma stats_admitted_counts_witness :
  compute_admission_from_db store_two_days "D" = Ok (stats_day_D.1.2, stats_day_D.2) ∧
  ∀ p l, stats_day_D.1.2 !! p = Some l →
    (∀ pr, pr ∈ [1; 2; 3; 4] →
           stats_day_D.1.1.2 !! (p, pr) =
           Some (admitted_with p pr l (select_consenting_rows store_two_days "D"))) ∧
    count_at stats_day_D.1.1.2 (p, 1) + count_at stats_day_D.1.1.2 (p, 2) +
    count_at stats_day_D.1.1.2 (p, 3) + count_at stats_day_D.1.1.2 (p, 4) =
    Z.of_nat (length l).
Proof.
  apply (stats_admitted_counts store_two_days "D" stats_day_D.1.1.1).
  vm_cast_no_check (eq_refl (Ok stats_day_D)).
Defined.

(** X19. The per-priority counters exist for priorities 1 to 4 only: when
    an admitted applicant's application to the program they were admitted to
    has any other priority, [_stats_for_day] raises [KeyError]. *)
Theorem stats_priority_out_of_range d day acc cut p l a f :
  compute_admission_from_db d day = Ok (acc, cut) →
  acc !! p = Some l → a ∈ l →
  applications d !! (day, p, a) = Some f → a_priority f ∉ [1; 2; 3; 4] →
  _stats_for_day d day = Raise KeyError.
Proof.
  unfold _stats_for_day, compute_admission_from_db.
  rewrite select_consenting_rows_filter. set (rows := select_day_rows d day).
  intros Hrun Hl Ha Hf Hpr. rewrite Hrun. cbn [rbind].
  assert (Hrun2 : compute_admission (consenting rows) = Ok (acc, cut))
    by (rewrite <- Hrun; apply compute_admission_same_consenting, consenting_idemp).
  pose proof (on_list_asked _ _ _ _ _ _ Hrun Hl Ha) as Hasked.
  apply elem_of_prefs_of in Hasked as (r & Hr & Hcons & Hid & Hprog).
  assert (Hr2 : r ∈ consenting rows) by by apply elem_of_consenting.
  assert (Hprio : r_priority r = a_priority f).
  { apply Queries.elem_of_select_day_rows in Hr as (f' & s & Hf' & _ & Hrow).
    rewrite Hid, Hprog in Hf'. assert (f' = f) as -> by congruence.
    by rewrite Hrow. }
  destruct (consenting rows) as [|r0 rest] eqn:Hrows; [by apply elem_of_nil in Hr2|].
  rewrite Hrun2. cbn [rbind fst].
  destruct (tally acc init_counts (r0 :: rest)) as [counts|e] eqn:Htally; cbn [rbind].
  - apply tally_spec in Htally as [_ Hall].
    destruct (Hall r Hr2) as (l' & Hl' & Hkey).
    rewrite Hprog in Hl'. assert (l' = l) as -> by congruence.
    rewrite Hid in Hkey. apply Hkey, elem_of_dom in Ha as [n Hn].
    rewrite Hprog, Hprio in Hn.
    by apply init_counts_lookup in Hn as (_ & ? & _).
  - by apply tally_raises in Htally as ->.
Qed.

Lemma stats_priority_out_of_range_witness :
  _stats_for_day store_priority_5 "D" = Raise KeyError.
Proof.
  apply (stats_priority_out_of_range store_priority_5 "D"
           (<["PM" := [1]]> init_accepted) init_cut "PM" [1] 1 (AppFact 1 5 "t0")).
  - by vm_compute.
  - by vm_compute.
  - by left.
  - by vm_compute.
  - rewrite !elem_of_cons, elem_of_nil. simpl. lia.
Defined.

Lemma count_at_bump k k' m :
  count_at (bump k m) k' = count_at m k' + (if decide (k = k') then 1 else 0).
Proof.
  unfold count_at, bump. case_decide as Hk.
  - subst. by rewrite lookup_insert_eq.
  - rewrite lookup_insert_ne by done. lia.
Qed.

Lemma appl_fold_count day (l : list (string * string * Z * app_fact)) m p pr :
  count_at
    (foldl (fun m kv => if decide (kv.1.1.1 = day)
                        then bump (kv.1.1.2, a_priority kv.2) m else m) m l)
    (p, pr) =
  count_at m (p, pr) +
  Z.of_nat (length (filter (fun kv => kv.1.1.1 = day ∧ kv.1.1.2 = p ∧ a_priority kv.2 = pr)
                           l)).
Proof.
  revert m. induction l as [|kv l IH]; intros m; cbn [foldl]; [simpl; lia|].
  rewrite IH, filter_cons.
  destruct (decide (kv.1.1.1 = day)) as [Hday|Hday].
  - rewrite count_at_bump.
    destruct (decide ((kv.1.1.2, a_priority kv.2) = (p, pr))) as [[= Hp Hpr]|Hne].
    + rewrite decide_True by done. simpl. lia.
    + rewrite decide_False by (intros (_ & <- & <-); done). lia.
  - rewrite decide_False by tauto. lia.
Qed.

(** X20. The application counts of [_stats_for_day] count, for each program
    and priority, the application rows stored for the day, with or without
    consent and whether or not the applicant has a score row. *)
Theorem stats_application_counts d day appl counts acc cut p pr :
  _stats_for_day d day = Ok (appl, counts, acc, cut) →
  count_at appl (p, pr) =
  Z.of_nat (size (filter (fun kv : string * string * Z * app_fact =>
                            kv.1.1.1 = day ∧ kv.1.1.2 = p ∧ a_priority kv.2 = pr)
                         (applications d))).
Proof.
  unfold _stats_for_day.
  destruct (compute_admission_from_db d day) as [res|]; cbn [rbind]; [|done].
  destruct (match select_consenting_rows d day with [] => _ | _ => _ end);
    cbn [rbind]; [|done].
  intros [= <- _ _ _]. unfold appl_counts. rewrite appl_fold_count.
  unfold count_at at 1. rewrite lookup_empty. cbn [default].
  rewrite Z.add_0_l, <- length_map_to_list. apply (f_equal Z.of_nat).
  apply Permutation_length, NoDup_Permutation.
  - apply NoDup_filter, NoDup_map_to_list.
  - apply NoDup_map_to_list.
  - intros [k fact]. rewrite list_elem_of_filter, !elem_of_map_to_list.
    rewrite map_lookup_filter_Some. tauto.
Qed.

Lemma stats_application_counts_witness :
  count_at stats_day_D.1.1.1 ("PM", 1) =
  Z.of_nat (size (filter (fun kv : string * string * Z * app_fact =>
                            kv.1.1.1 = "D" ∧ kv.1.1.2 = "PM" ∧ a_priority kv.2 = 1)
                         (applications store_two_days))).
Proof.
  apply (stats_application_counts store_two_days "D" stats_day_D.1.1.1
           stats_day_D.1.1.2 stats_day_D.1.2 stats_day_D.2 "PM" 1).
  vm_cast_no_check (eq_refl (Ok stats_day_D)).
Defined.

End StatsFacts.

(** ** The sample-data generator: results *)

Module GeneratorFacts.
Import Alloc Generator.

Lemma subscript_cases `{Countable K} {V} (d : gmap K V) (k : K) :
  (∃ v, d !! k = Some v ∧ subscript d k = Ok v) ∨
  (d !! k = None ∧ subscript d k = Raise KeyError).
Proof. unfold subscript. destruct (d !! k); eauto. Qed.

Lemma pair_sizes_reversed tbl I0 pairs I :
  pair_sizes tbl I0 pairs = Ok I →
  ∀ x y, (x, y) ∈ pairs → is_Some (tbl !! (y, x)).
Proof.
  revert I0. induction pairs as [|[x0 y0] pairs IH]; intros I0; simpl.
  - intros _ x y Hin. by apply elem_of_nil in Hin.
  - unfold pair_size, subscript.
    destruct (tbl !! (y0, x0)) as [n|] eqn:Hrev; simpl; [|done].
    intros Hrest x y [[= -> ->]|Hin]%elem_of_cons; [eauto|].
    by eapply IH.
Qed.

Lemma shipped_pairs_one_order day tbl :
  pair_intersections !! day = Some tbl → tbl !! ("IVT", "PM") = None.
Proof.
  intros Hday. unfold pair_intersections, table_of in Hday.
  apply (elem_of_list_to_map_2 (M:=gmap string)) in Hday.
  cbn [fmap list_fmap prod_map id fst snd] in Hday.
  rewrite !elem_of_cons, elem_of_nil in Hday.
  destruct Hday as [Heq|[Heq|[Heq|[Heq|[]]]]]; injection Heq as _ ->;
    by vm_compute.
Qed.

(** X21. [exclusive_counts] evaluates [tbl[(y, x)]] for each of the six
    pairs of programs before it looks at [(x, y)], so it returns only when
    the pair table of the day holds every pair in reversed order.  The
    tables of the file hold each pair in one order only: the function raises
    [KeyError] for every day. *)
Theorem exclusive_counts_needs_reversed_pairs :
  (∀ tot pairs triples day only,
     exclusive_counts_on tot pairs triples day = Ok only →
     ∃ tbl, pairs !! day = Some tbl ∧
            ∀ x y, (x, y) ∈ combinations2 PROGRAMS → is_Some (tbl !! (y, x))) ∧
  (∀ day, exclusive_counts day = Raise KeyError).
Proof.
  split.
  - intros tot pairs triples day only. unfold exclusive_counts_on, PROGRAMS.
    destruct (subscript_cases pairs day) as [(tbl & Hday & ->)|[_ ->]];
      cbn [rbind]; [|done].
    destruct (pair_sizes tbl ∅ _) as [I|] eqn:Hpairs; cbn [rbind]; [|done].
    intros _. exists tbl. split; [done|]. by eapply pair_sizes_reversed.
  - intros day. unfold exclusive_counts, exclusive_counts_on, PROGRAMS.
    destruct (subscript_cases pair_intersections day) as [(tbl & Hday & ->)|[_ ->]];
      cbn [rbind]; [|done].
    apply shipped_pairs_one_order in Hday.
    cbn [combinations2 fmap list_fmap app pair_sizes].
    unfold pair_size at 1. unfold subscript at 1. by rewrite Hday.
Qed.

Lemma exclusive_counts_needs_reversed_pairs_witness :
  ∃ tbl, both_orders pair_intersections !! "2024-08-01" = Some tbl ∧
         ∀ x y, (x, y) ∈ combinations2 PROGRAMS → is_Some (tbl !! (y, x)).
Proof.
  apply (proj1 exclusive_counts_needs_reversed_pairs totals
           (both_orders pair_intersections) triple_intersections "2024-08-01"
           counts_both_orders).
  vm_cast_no_check (eq_refl (Ok counts_both_orders)).
Defined.

Lemma sum_Permutation (l1 l2 : list Z) :
  l1 ≡ₚ l2 → foldr Z.add 0 l1 = foldr Z.add 0 l2.
Proof. induction 1; simpl; lia. Qed.

Lemma sum_over_table (P : gset string → Prop) `{!∀ k, Decision (P k)}
    (l : list (gset string * Z)) :
  NoDup l.*1 →
  foldr Z.add 0
    ((fun kv => kv.2) <$>
       filter (fun kv : gset string * Z => P kv.1)
              (map_to_list (list_to_map l : gmap (gset string) Z))) =
  foldr (fun kv acc => (if bool_decide (P kv.1) then kv.2 else 0) + acc) 0 l.
Proof.
  intros Hnd.
  rewrite (sum_Permutation _ ((fun kv => kv.2) <$>
             filter (fun kv : gset string * Z => P kv.1) l)).
  2:{ by rewrite (map_to_list_to_map l Hnd). }
  clear Hnd. induction l as [|[k v] l IH]; [done|].
  rewrite filter_cons. cbn [foldr fst snd]. rewrite <- IH.
  destruct (decide (P k)) as [Hk|Hk].
  - by rewrite (bool_decide_eq_true_2 _ Hk).
  - rewrite (bool_decide_eq_false_2 _ Hk). simpl. lia.
Qed.

Lemma covering_table ps (l : list (gset string * Z)) :
  NoDup l.*1 →
  covering ps (list_to_map l) =
  foldr (fun kv acc =>
           (if bool_decide (list_to_set ps ⊆ kv.1) then kv.2 else 0) + acc) 0 l.
Proof. apply (sum_over_table (fun k => list_to_set ps ⊆ k)). Qed.

Lemma shared_with_table p (l : list (gset string * Z)) :
  NoDup l.*1 →
  shared_with p (list_to_map l) =
  foldr (fun kv acc =>
           (if bool_decide (p ∈ kv.1 ∧ (2 ≤ size kv.1)%nat) then kv.2 else 0)
           + acc) 0 l.
Proof.
  intros Hnd. unfold shared_with.
  pose proof (sum_over_table (fun k => p ∈ k ∧ (2 ≤ size k)%nat) l Hnd) as Hsum.
  cbv beta in Hsum. by rewrite <- Hsum.
Qed.


Lemma subscript_Ok `{Countable K} {V} (d : gmap K V) (k : K) v :
  subscript d k = Ok v → d !! k = Some v.
Proof. unfold subscript. destruct (d !! k); [by intros [= ->]|done]. Qed.

Lemma pair_sizes_spec tbl pairs :
  ∀ I0 I, pair_sizes tbl I0 pairs = Ok I →
    (∀ x y, (x, y) ∈ pairs →
       ∃ rev, tbl !! (y, x) = Some rev ∧
              I !! [x; y] = Some (default rev (tbl !! (x, y)))) ∧
    (∀ k, (∀ x y, (x, y) ∈ pairs → k ≠ [x; y]) → I !! k = I0 !! k).
Proof.
  induction pairs as [|[x0 y0] pairs IH]; intros I0 I; cbn [pair_sizes].
  - intros [= ->]. split; [|done]. intros x y Hin. by apply elem_of_nil in Hin.
  - intros (n & Hn & Hrest)%ValidationMore.rbind_Ok.
    destruct (IH _ _ Hrest) as [Hin Hout].
    unfold pair_size in Hn.
    apply ValidationMore.rbind_Ok in Hn as (rev & Hrev%subscript_Ok & [= <-]).
    split.
    + intros x y Hxy. destruct (decide ((x, y) ∈ pairs)) as [Hl|Hl]; [by apply Hin|].
      apply elem_of_cons in Hxy as [[= -> ->]|Hxy]; [|done].
      exists rev. split; [done|]. rewrite Hout.
      * by rewrite lookup_insert_eq.
      * intros x y Hxy [= -> ->]. done.
    + intros k Hk. rewrite Hout.
      * rewrite lookup_insert_ne; [done|]. intros <-. eapply Hk; [left|done].
      * intros x y Hxy. apply Hk. by right.
Qed.

Lemma tuple_sizes_spec tbl tuples :
  ∀ I0 I, tuple_sizes tbl I0 tuples = Ok I →
    (∀ t, t ∈ tuples → ∃ n, tbl !! t = Some n ∧ I !! t = Some n) ∧
    (∀ k, k ∉ tuples → I !! k = I0 !! k).
Proof.
  induction tuples as [|t0 tuples IH]; intros I0 I; cbn [tuple_sizes].
  - intros [= ->]. split; [|done]. intros t Hin. by apply elem_of_nil in Hin.
  - intros (n & Hn%subscript_Ok & Hrest)%ValidationMore.rbind_Ok.
    destruct (IH _ _ Hrest) as [Hin Hout]. split.
    + intros t Ht. destruct (decide (t ∈ tuples)) as [Hl|Hl]; [by apply Hin|].
      apply elem_of_cons in Ht as [->|Ht]; [|done].
      exists n. split; [done|]. rewrite Hout by done. by rewrite lookup_insert_eq.
    + intros k Hk. apply not_elem_of_cons in Hk as [Hne Hk].
      rewrite Hout by done. by rewrite lookup_insert_ne.
Qed.

Lemma several_sizes (A B C D : string) (I : gmap (list string) Z)
    ab ac ad bc bd cd abc abd bcd acd abcd :
  (list_to_set [A; B; C] : gset string) ≠ list_to_set [A; B; C; D] →
  (list_to_set [A; B; D] : gset string) ≠ list_to_set [A; B; C; D] →
  (list_to_set [A; C; D] : gset string) ≠ list_to_set [A; B; C; D] →
  I !! [A; B] = Some ab → I !! [A; C] = Some ac → I !! [A; D] = Some ad →
  I !! [B; C] = Some bc → I !! [B; D] = Some bd → I !! [C; D] = Some cd →
  I !! [A; B; C] = Some abc → I !! [A; B; D] = Some abd →
  I !! [B; C; D] = Some bcd → I !! [A; C; D] = Some acd →
  I !! [A; B; C; D] = Some abcd →
  several A B C D I =
  Ok (list_to_map
        [(list_to_set [C; D], cd - acd - bcd + abcd);
         (list_to_set [B; D], bd - abd - bcd + abcd);
         (list_to_set [B; C], bc - abc - bcd + abcd);
         (list_to_set [A; D], ad - abd - acd + abcd);
         (list_to_set [A; C], ac - abc - acd + abcd);
         (list_to_set [A; B], ab - abc - abd + abcd);
         (list_to_set [B; C; D], bcd - abcd);
         (list_to_set [A; C; D], acd - abcd);
         (list_to_set [A; B; D], abd - abcd);
         (list_to_set [A; B; C], abc - abcd);
         (list_to_set [A; B; C; D], abcd)]).
Proof.
  intros N1 N2 N3 Hab Hac Had Hbc Hbd Hcd Habc Habd Hbcd Hacd Habcd.
  unfold several, subscript.
  rewrite Hab, Hac, Had, Hbc, Hbd, Hcd, Habc, Habd, Hbcd, Hacd, Habcd.
  cbn [rbind].
  repeat (first [ rewrite lookup_insert_eq
                | rewrite lookup_insert_ne by assumption ];
          cbn [rbind]).
  unfold list_to_map. cbn [foldr fst snd]. reflexivity.
Qed.

Lemma Ok_inj {A} (a b : A) : Ok a = Ok b → a = b.
Proof. by intros [= ->]. Qed.

Ltac by_evaluation := apply (bool_decide_unpack _); vm_compute; exact I.

Ltac keys_distinct := cbn [fmap list_fmap fst]; by_evaluation.

Ltac decide_keys :=
  repeat match goal with
         | |- context [@bool_decide ?P ?d] =>
             let b := eval vm_compute in (@bool_decide P d) in
             replace (@bool_decide P d) with b by (vm_compute; reflexivity)
         end.

Ltac sum_up :=
  rewrite covering_table by keys_distinct;
  cbn [foldr fst snd]; decide_keys; cbv iota; lia.

(** X22. When [exclusive_counts] returns, its counts add up to the sizes
    it was given: for each program the counts of the sets that hold it sum
    to the program's total, for each pair of programs the counts of the sets
    that hold both sum to the pair's size, and likewise for the four triples
    and for the set of all four programs. *)
Theorem exclusive_counts_consistent tot pairs triples day only :
  exclusive_counts_on tot pairs triples day = Ok only →
  ∃ tot_tbl pair_tbl triple_tbl,
    tot !! day = Some tot_tbl ∧
    pairs !! day = Some pair_tbl ∧
    triples !! day = Some triple_tbl ∧
    (∀ p, p ∈ PROGRAMS → tot_tbl !! p = Some (covering [p] only)) ∧
    (∀ x y, (x, y) ∈ combinations2 PROGRAMS →
       ∃ rev, pair_tbl !! (y, x) = Some rev ∧
              covering [x; y] only = default rev (pair_tbl !! (x, y))) ∧
    (∀ t, t ∈ [["PM"; "IVT"; "ITSS"]; ["PM"; "IVT"; "IB"];
               ["IVT"; "ITSS"; "IB"]; ["PM"; "ITSS"; "IB"];
               ["PM"; "IVT"; "ITSS"; "IB"]] →
       triple_tbl !! t = Some (covering t only)).
Proof.
  unfold exclusive_counts_on, PROGRAMS. intros Hrun.
  apply ValidationMore.rbind_Ok in Hrun as (ptbl & Hp%subscript_Ok & Hrun).
  apply ValidationMore.rbind_Ok in Hrun as (I1 & HI1 & Hrun).
  apply ValidationMore.rbind_Ok in Hrun as (ttbl & Ht%subscript_Ok & Hrun).
  apply ValidationMore.rbind_Ok in Hrun as (I2 & HI2 & Hrun).
  apply ValidationMore.rbind_Ok in Hrun as (o11 & Ho11 & Hrun).
  apply ValidationMore.rbind_Ok in Hrun as (ttl & Htot%subscript_Ok & Hrun).
  apply pair_sizes_spec in HI1 as [Hpairs _].
  apply tuple_sizes_spec in HI2 as [Htuples Hkeep].
  destruct (Hpairs "PM" "IVT") as (r_ab & Hr_ab & Hab); [by_evaluation|].
  destruct (Hpairs "PM" "ITSS") as (r_ac & Hr_ac & Hac); [by_evaluation|].
  destruct (Hpairs "PM" "IB") as (r_ad & Hr_ad & Had); [by_evaluation|].
  destruct (Hpairs "IVT" "ITSS") as (r_bc & Hr_bc & Hbc); [by_evaluation|].
  destruct (Hpairs "IVT" "IB") as (r_bd & Hr_bd & Hbd); [by_evaluation|].
  destruct (Hpairs "ITSS" "IB") as (r_cd & Hr_cd & Hcd); [by_evaluation|].
  rewrite <- Hkeep in Hab, Hac, Had, Hbc, Hbd, Hcd by by_evaluation.
  destruct (Htuples ["PM"; "IVT"; "ITSS"]) as (abc & Htabc & Habc); [by_evaluation|].
  destruct (Htuples ["PM"; "IVT"; "IB"]) as (abd & Htabd & Habd); [by_evaluation|].
  destruct (Htuples ["IVT"; "ITSS"; "IB"]) as (bcd & Htbcd & Hbcd); [by_evaluation|].
  destruct (Htuples ["PM"; "ITSS"; "IB"]) as (acd & Htacd & Hacd); [by_evaluation|].
  destruct (Htuples ["PM"; "IVT"; "ITSS"; "IB"]) as (abcd & Htabcd & Habcd);
    [by_evaluation|].
  clear Hpairs Htuples Hkeep.
  rewrite (several_sizes "PM" "IVT" "ITSS" "IB" I2 _ _ _ _ _ _ _ _ _ _ _
             ltac:(by_evaluation) ltac:(by_evaluation) ltac:(by_evaluation)
             Hab Hac Had Hbc Hbd Hcd Habc Habd Hbcd Hacd Habcd) in Ho11.
  apply Ok_inj in Ho11 as <-.
  cbn [alone] in Hrun.
  apply ValidationMore.rbind_Ok in Hrun as (ta & Hta%subscript_Ok & Hrun).
  apply ValidationMore.rbind_Ok in Hrun as (tb & Htb%subscript_Ok & Hrun).
  apply ValidationMore.rbind_Ok in Hrun as (tc & Htc%subscript_Ok & Hrun).
  apply ValidationMore.rbind_Ok in Hrun as (td & Htd%subscript_Ok & Hrun).
  apply Ok_inj in Hrun. revert Hrun.
  rewrite <- !list_to_map_cons.
  rewrite !shared_with_table by keys_distinct.
  cbn [foldr fst snd]. decide_keys. cbv iota. intros <-.
  exists ttl, ptbl, ttbl. split_and!; try done.
  - intros p Hin.
    repeat (apply elem_of_cons in Hin as [ -> |Hin]);
      [..|by apply elem_of_nil in Hin].
    + rewrite Hta. f_equal. sum_up.
    + rewrite Htb. f_equal. sum_up.
    + rewrite Htc. f_equal. sum_up.
    + rewrite Htd. f_equal. sum_up.
  - intros x y Hin. cbn [combinations2 fmap list_fmap app] in Hin.
    repeat (apply elem_of_cons in Hin as [[= -> ->]|Hin]);
      [..|by apply elem_of_nil in Hin].
    + exists r_ab. split; [done|]. sum_up.
    + exists r_ac. split; [done|]. sum_up.
    + exists r_ad. split; [done|]. sum_up.
    + exists r_bc. split; [done|]. sum_up.
    + exists r_bd. split; [done|]. sum_up.
    + exists r_cd. split; [done|]. sum_up.
  - intros t Hin.
    repeat (apply elem_of_cons in Hin as [ -> |Hin]);
      [..|by apply elem_of_nil in Hin].
    + rewrite Htabc. f_equal. sum_up.
    + rewrite Htabd. f_equal. sum_up.
    + rewrite Htbcd. f_equal. sum_up.
    + rewrite Htacd. f_equal. sum_up.
    + rewrite Htabcd. f_equal. sum_up.
Qed.

Lemma exclusive_counts_consistent_witness :
  ∃ tot_tbl pair_tbl triple_tbl,
    totals !! "2024-08-01" = Some tot_tbl ∧
    both_orders pair_intersections !! "2024-08-01" = Some pair_tbl ∧
    triple_intersections !! "2024-08-01" = Some triple_tbl ∧
    (∀ p, p ∈ PROGRAMS → tot_tbl !! p = Some (covering [p] counts_both_orders)) ∧
    (∀ x y, (x, y) ∈ combinations2 PROGRAMS →
       ∃ rev, pair_tbl !! (y, x) = Some rev ∧
              covering [x; y] counts_both_orders = default rev (pair_tbl !! (x, y))) ∧
    (∀ t, t ∈ [["PM"; "IVT"; "ITSS"]; ["PM"; "IVT"; "IB"];
               ["IVT"; "ITSS"; "IB"]; ["PM"; "ITSS"; "IB"];
               ["PM"; "IVT"; "ITSS"; "IB"]] →
       triple_tbl !! t = Some (covering t counts_both_orders)).
Proof.
  apply (exclusive_counts_consistent totals (both_orders pair_intersections)
           triple_intersections "2024-08-01" counts_both_orders).
  vm_cast_no_check (eq_refl (Ok counts_both_orders)).
Defined.

End GeneratorFacts.
